(** * CSV to Opentrons protocol generator: the plan compiler

    A shallow embedding of [csv_to_opentrons_generator.py]: row validation
    ([filter_valid_wells]), column classification ([identify_columns]),
    batching ([segment_data]), well assignment ([get_well_positions]),
    grouping ([group_by_reagent_and_volume]) and pipette selection
    ([select_pipette]), with the orchestration of [generate_full_protocol]
    and [main].

    Conventions of the embedding:
    - a pandas [DataFrame] is its list of column names and its list of rows;
      a row carries its index label and its cells, aligned with the columns;
    - a cell is a number (a rational for the float), the missing value NaN,
      or a text; a comparison of a text with a number raises [TypeError],
      as in Python;
    - [print] and file writes are events of a trace; an f-string message is
      an event constructor that carries the interpolated values; the text
      templates of the emitted program (header, labware, liquids, liquid
      class) are kept as the values they interpolate;
    - column names are taken to be ASCII, so that [str.lower] is the ASCII
      lower-casing. *)

From Stdlib Require Import List String Ascii Bool Arith PeanoNat Lia.
From Stdlib Require Import ZArith QArith Qround DecimalNat DecimalString.
From Stdlib Require Import Sorted.
Import ListNotations.

Local Open Scope Q_scope.
Local Open Scope string_scope.
Local Open Scope list_scope.
Local Open Scope nat_scope.

(** [len(l)] *)
Abbreviation len := List.length.

(** ** Python strings *)

Module PyStr.

Definition lower_ascii (c : ascii) : ascii :=
  let n := nat_of_ascii c in
  if (65 <=? n) && (n <=? 90) then ascii_of_nat (n + 32) else c.

(** [s.lower()] *)
Fixpoint lower (s : string) : string :=
  match s with
  | EmptyString => EmptyString
  | String c s' => String (lower_ascii c) (lower s')
  end.

(** [pat in s] *)
Fixpoint contains (pat s : string) : bool :=
  String.prefix pat s ||
  match s with
  | EmptyString => false
  | String _ s' => contains pat s'
  end.

(** [any(x in s for x in pats)] *)
Definition contains_any (pats : list string) (s : string) : bool :=
  existsb (fun x => contains x s) pats.

(** [str(n)] for a non-negative integer *)
Definition of_nat (n : nat) : string :=
  NilEmpty.string_of_uint (Nat.to_uint n).

End PyStr.

(** ** Values, exceptions and effects *)

Inductive cell : Type :=
| Num (q : Q)
| NaN
| Str (s : string).

Inductive exn : Type := TypeError | KeyError | IndexError | ValueError.

Inductive result (A : Type) : Type :=
| Ok (a : A)
| Raise (e : exn).
Arguments Ok {A} a.
Arguments Raise {A} e.

Definition rbind {A B} (r : result A) (k : A -> result B) : result B :=
  match r with
  | Ok a => k a
  | Raise e => Raise e
  end.

Fixpoint rmap {A B} (f : A -> result B) (l : list A) : result (list B) :=
  match l with
  | [] => Ok []
  | a :: l' =>
      rbind (f a) (fun b => rbind (rmap f l') (fun bs => Ok (b :: bs)))
  end.

Definition Qlt_bool (a b : Q) : bool := negb (Qle_bool b a).

(** [c > 0], [c <= 0] on one cell: NaN compares false, a text raises. *)
Definition cell_gt (c : cell) (bound : Q) : result bool :=
  match c with
  | Num q => Ok (Qlt_bool bound q)
  | NaN => Ok false
  | Str _ => Raise TypeError
  end.

(** ** Data frames *)

Record Row : Type := mkRow {
  label : nat;          (* the index label of the row *)
  cells : list cell     (* aligned with the frame's columns *)
}.

Record DataFrame : Type := mkDF {
  columns : list string;
  rows : list Row
}.

Fixpoint index_of (col : string) (cols : list string) : option nat :=
  match cols with
  | [] => None
  | c :: cols' =>
      if String.eqb c col then Some 0
      else option_map S (index_of col cols')
  end.

(** The value of row [r] in the column at position [i]; a row shorter than
    the header has missing values, as [read_csv] gives. *)
Definition cell_at (i : nat) (r : Row) : cell := nth i (cells r) NaN.

(** [df[col]]: the column as a list of cells, in row order. *)
Definition series (df : DataFrame) (col : string) : result (list cell) :=
  match index_of col (columns df) with
  | None => Raise KeyError
  | Some i => Ok (map (cell_at i) (rows df))
  end.

(** [df[mask]] *)
Fixpoint boolean_index (rs : list Row) (mask : list bool) : list Row :=
  match rs, mask with
  | r :: rs', b :: mask' =>
      if b then r :: boolean_index rs' mask' else boolean_index rs' mask'
  | _, _ => []
  end.

(** [df.iloc[i:j]] *)
Definition iloc (df : DataFrame) (i j : nat) : DataFrame :=
  mkDF (columns df) (firstn (j - i) (skipn i (rows df))).

Fixpoint relabel (k : nat) (rs : list Row) : list Row :=
  match rs with
  | [] => []
  | r :: rs' => mkRow k (cells r) :: relabel (S k) rs'
  end.

(** [df.reset_index(drop=True)] *)
Definition reset_index (df : DataFrame) : DataFrame :=
  mkDF (columns df) (relabel 0 (rows df)).

(** ** Reagents and dicts keyed by reagent *)

(** The four reagent names that key [LIQUID_DEFINITIONS], [patterns] and
    the column binding. *)
Inductive Liquid : Type := glycine | nacl | tris | water.

Definition Liquid_eqb (a b : Liquid) : bool :=
  match a, b with
  | glycine, glycine | nacl, nacl | tris, tris | water, water => true
  | _, _ => false
  end.

(** A Python dict with reagent keys, in insertion order. *)
Definition dict (V : Type) : Type := list (Liquid * V).

Fixpoint dict_get {V} (d : dict V) (k : Liquid) : option V :=
  match d with
  | [] => None
  | (k', v) :: d' => if Liquid_eqb k' k then Some v else dict_get d' k
  end.

(** [d[k] = v] *)
Fixpoint dict_set {V} (d : dict V) (k : Liquid) (v : V) : dict V :=
  match d with
  | [] => [(k, v)]
  | (k', v') :: d' =>
      if Liquid_eqb k' k then (k, v) :: d' else (k', v') :: dict_set d' k v
  end.


(** [LIQUID_DEFINITIONS[reagent]['tube_position']] *)
Definition tube_position (l : Liquid) : string :=
  match l with
  | glycine => "A1"
  | nacl => "A2"
  | tris => "B1"
  | water => "B2"
  end.

(** ** Transfer requests, routed steps and emitted programs *)

Record Transfer : Type := mkTransfer {
  reagent : Liquid;
  volume : Q;
  source_tube : string;
  wells : list cell;
  count : nat
}.

(** What [generate_transfer_step] interpolates into the text of a step. *)
Record Step : Type := mkStep {
  step_num : nat;
  pipette : string;
  pipette_type : string;
  step_volume : Q;
  step_source : string;
  step_dest : list cell
}.

(** What [generate_protocol_header] interpolates into the header. *)
Record Header : Type := mkHeader {
  segment_num : nat;
  total_segments : nat;
  wells_in_segment : nat;
  timestamp : string
}.

Record Program : Type := mkProgram {
  header : Header;
  steps : list Step
}.

(** [OUTPUT_FILE_PATH], or its base name with [_Segment_{k}.py]. *)
Inductive path : Type :=
| OutputFile
| SegmentFile (k : nat).

(** ** Console and file events *)

Inductive event : Type :=
| MsgNoWaterColumn                           (* "Warning: No water volume column found" *)
| MsgFiltered (n : nat)                      (* "Filtered {n} wells with negative water volumes" *)
| MsgRemaining (n : nat)                     (* "Remaining wells: {n}" *)
| MsgSegment (k n : nat)                     (* "Segment {k}: {n} wells" *)
| MsgIdentified (cols : dict string)         (* "Identified columns: {columns}" *)
| MsgProcessing                              (* "Processing CSV file: {csv_path}" *)
| MsgLoaded (n : nat) (cols : list string)   (* "Successfully loaded CSV with {n} rows", "Columns: ..." *)
| MsgReadError                               (* "Error reading CSV: {e}" *)
| MsgGenerating (k total n : nat) (p : path) (* "Generating Segment {k}/{total}: {n} wells -> ..." *)
| MsgSaved (k : nat)                         (* "Segment {k} saved successfully" *)
| MsgWriteError (k : nat)                    (* "Error writing segment {k}: {e}" *)
| MsgBanner                                  (* the three opening lines of main *)
| MsgNotFound                                (* "Error: CSV file not found at ..." and the hint *)
| MsgCompleted (files : list path)           (* the completion summary *)
| MsgFailed                                  (* "Failed to generate protocol" *)
| Wrote (p : path) (code : Program).         (* f.write(protocol_code) *)

(** A computation that prints, writes files and may raise: the events, in
    order, up to the result or the exception. *)
Definition Py (A : Type) : Type := (list event * result A)%type.

Definition ret {A} (a : A) : Py A := ([], Ok a).

Definition bind {A B} (m : Py A) (k : A -> Py B) : Py B :=
  match m with
  | (out, Ok a) => let '(out', r) := k a in (out ++ out', r)
  | (out, Raise e) => (out, Raise e)
  end.

Definition emit (e : event) : Py unit := ([e], Ok tt).

Definition lift {A} (r : result A) : Py A := ([], r).

Definition trace {A} (m : Py A) : list event := fst m.
Definition outcome {A} (m : Py A) : result A := snd m.

Declare Scope py_scope.
Delimit Scope py_scope with py.
Notation "x <- m ;; k" := (bind m (fun x => k))
  (at level 61, m at next level, right associativity) : py_scope.
Notation "m ;;; k" := (bind m (fun _ => k))
  (at level 61, right associativity) : py_scope.

(** ** Row Validator: [filter_valid_wells] *)

Definition is_water_col (col : string) : bool :=
  PyStr.contains "water" (PyStr.lower col).

Definition filter_valid_wells (df : DataFrame) : Py DataFrame :=
  let water_cols := filter is_water_col (columns df) in
  match water_cols with
  | [] => (emit MsgNoWaterColumn ;;; ret df)%py
  | water_col :: _ =>
      let initial_count := len (rows df) in
      (mask <- lift (rbind (series df water_col)
                           (rmap (fun c => cell_gt c 0%Q))) ;;
       let df_filtered := mkDF (columns df) (boolean_index (rows df) mask) in
       let filtered_count := len (rows df_filtered) in
       emit (MsgFiltered (initial_count - filtered_count)) ;;;
       emit (MsgRemaining filtered_count) ;;;
       ret df_filtered)%py
  end.

(** ** Batcher: [segment_data] *)

(** The elements of [range(i, stop, step)] for a positive step; each one
    consumes one unit of fuel. *)
Fixpoint range_from (fuel i stop step : nat) : list nat :=
  match fuel with
  | 0 => []
  | S fuel' =>
      if i <? stop then i :: range_from fuel' (i + step) stop step else []
  end.

(** [range(start, stop, step)]: a zero step raises; otherwise at most
    [stop] elements lie below [stop]. *)
Definition range (start stop step : nat) : result (list nat) :=
  if step =? 0 then Raise ValueError
  else Ok (range_from stop start stop step).

Fixpoint segment_loop (df : DataFrame) (max_wells : nat) (starts : list nat)
    (segments : list DataFrame) : Py (list DataFrame) :=
  match starts with
  | [] => ret segments
  | i :: starts' =>
      let segment := iloc df i (i + max_wells) in
      let segments := segments ++ [segment] in
      (emit (MsgSegment (len segments) (len (rows segment))) ;;;
       segment_loop df max_wells starts' segments)%py
  end.

Definition segment_data (df : DataFrame) (max_wells : nat)
  : Py (list DataFrame) :=
  let total_rows := len (rows df) in
  (starts <- lift (range 0 total_rows max_wells) ;;
   segment_loop df max_wells starts [])%py.

(** The default of the [max_wells] argument. *)
Definition max_wells_default : nat := 28.

(** ** Well Assigner: [get_well_positions] *)

Definition is_position_col (col : string) : bool :=
  PyStr.contains_any ["well"; "position"; "pos"] (PyStr.lower col).

Definition grid_rows : list string := ["A"; "B"; "C"; "D"; "E"; "F"; "G"; "H"].
Definition grid_cols : list nat := seq 1 12.

(** The body of the loop over [df.iterrows()], at cursor [well_idx]. *)
Definition synthesized_well (well_idx : nat) : string :=
  if well_idx <? len grid_rows * len grid_cols then
    let row_idx := well_idx / len grid_cols in
    let col_idx := well_idx mod len grid_cols + 1 in
    nth row_idx grid_rows "" ++ PyStr.of_nat col_idx
  else "X" ++ PyStr.of_nat well_idx.

Fixpoint synthesize (rs : list Row) (well_idx : nat) : list cell :=
  match rs with
  | [] => []
  | _ :: rs' => Str (synthesized_well well_idx) :: synthesize rs' (S well_idx)
  end.

Definition get_well_positions (df : DataFrame) : list cell :=
  let position_cols := filter is_position_col (columns df) in
  match position_cols with
  | col :: _ =>
      match index_of col (columns df) with
      | Some i => map (cell_at i) (rows df)
      | None => []  (* unreachable: [col] is one of the columns *)
      end
  | [] => synthesize (rows df) 0
  end.

(** ** Column Classifier: [identify_columns] *)

Definition patterns : list (Liquid * list string) :=
  [ (glycine, ["gly"; "2.4m"; "glycine"]);
    (nacl, ["nacl"; "5m"; "salt"]);
    (tris, ["tris"; "buffer"; "0.5m"]);
    (water, ["water"; "h2o"]) ].

Definition matches (pattern_list : list string) (col : string) : bool :=
  PyStr.contains_any pattern_list (PyStr.lower col).

(** The inner loop: the first matching column is bound, then [break]. *)
Fixpoint scan_columns (liquid : Liquid) (pattern_list : list string)
    (cols : list string) (binding : dict string) : dict string :=
  match cols with
  | [] => binding
  | col :: cols' =>
      if matches pattern_list col then dict_set binding liquid col
      else scan_columns liquid pattern_list cols' binding
  end.

Definition classify (cols : list string) (pats : list (Liquid * list string))
  : dict string :=
  fold_left (fun binding lp => scan_columns (fst lp) (snd lp) cols binding)
            pats [].

Definition identify_columns (df : DataFrame) : Py (dict string) :=
  let binding := classify (columns df) patterns in
  (emit (MsgIdentified binding) ;;; ret binding)%py.

(** ** Instrument Router: [select_pipette] *)

Definition select_pipette (volume : Q) : string * string :=
  if Qle_bool volume 20 then ("pipette_right", "p20_single_gen2")
  else ("pipette_left", "p300_single_gen2").

(** ** Transfer Grouper: [group_by_reagent_and_volume] *)

Definition reagent_order : list Liquid := [tris; nacl; glycine; water].

(** A key of [df.groupby(col)]: a number or a text; missing values are
    dropped and never are keys. *)
Inductive gkey : Type :=
| KNum (q : Q)
| KStr (s : string).

(** Insertion into the ascending list of distinct numeric keys. *)
Fixpoint insert_key (q : Q) (ks : list Q) : list Q :=
  match ks with
  | [] => [q]
  | k :: ks' =>
      match (q ?= k)%Q with
      | Lt => q :: ks
      | Eq => ks
      | Gt => k :: insert_key q ks'
      end
  end.

Fixpoint numeric_keys (cs : list cell) : list Q :=
  match cs with
  | [] => []
  | Num q :: cs' => insert_key q (numeric_keys cs')
  | _ :: cs' => numeric_keys cs'
  end.

Fixpoint text_keys (cs : list cell) : list string :=
  match cs with
  | [] => []
  | Str s :: cs' => s :: text_keys cs'
  | _ :: cs' => text_keys cs'
  end.

Definition has_key (i : nat) (k : gkey) (r : Row) : bool :=
  match k, cell_at i r with
  | KNum q, Num q' => Qeq_bool q' q
  | KStr s, Str s' => String.eqb s' s
  | _, _ => false
  end.

(** [df.groupby(col)], iterated: the groups in key order, numbers
    ascending and before texts, each group with its rows in frame order.
    The order among text keys is immaterial here: the caller raises at the
    first of them. *)
Definition groupby (df : DataFrame) (col : string)
  : result (list (gkey * list Row)) :=
  match index_of col (columns df) with
  | None => Raise KeyError
  | Some i =>
      let cs := map (cell_at i) (rows df) in
      let keys := map KNum (numeric_keys cs)
                  ++ map KStr (nodup string_dec (text_keys cs)) in
      Ok (map (fun k => (k, filter (has_key i k) (rows df))) keys)
  end.

(** [well_positions[idx]] *)
Definition well_at (well_positions : list cell) (idx : nat) : result cell :=
  match nth_error well_positions idx with
  | Some w => Ok w
  | None => Raise IndexError
  end.

(** The loop over the groups of one reagent. *)
Fixpoint volume_loop (rg : Liquid) (tube : string) (well_positions : list cell)
    (groups : list (gkey * list Row)) (transfers : list Transfer)
  : result (list Transfer) :=
  match groups with
  | [] => Ok transfers
  | (KStr _, _) :: _ => Raise TypeError        (* [volume <= 0] on a text *)
  | (KNum v, group) :: groups' =>
      if Qle_bool v 0 then volume_loop rg tube well_positions groups' transfers
      else
        rbind (rmap (fun r => well_at well_positions (label r)) group)
          (fun ws =>
             volume_loop rg tube well_positions groups'
               (transfers ++ [mkTransfer rg v tube ws (len ws)]))
  end.

(** The loop over [reagent_order]. *)
Fixpoint reagent_loop (df : DataFrame) (binding : dict string)
    (well_positions : list cell) (order : list Liquid)
    (transfers : list Transfer) : result (list Transfer) :=
  match order with
  | [] => Ok transfers
  | rg :: order' =>
      match dict_get binding rg with
      | None => reagent_loop df binding well_positions order' transfers
      | Some col_name =>
          let tube := tube_position rg in
          rbind (groupby df col_name) (fun volume_groups =>
          rbind (volume_loop rg tube well_positions volume_groups transfers)
            (fun transfers' =>
               reagent_loop df binding well_positions order' transfers'))
      end
  end.

Definition group_by_reagent_and_volume (df : DataFrame) (binding : dict string)
    (well_positions : list cell) : result (list Transfer) :=
  reagent_loop df binding well_positions reagent_order [].

(** ** Orchestration *)

(** The step of one routed request: the pipette of [select_pipette] with
    the volume, the source tube and the destination wells. The arguments
    [liquid_name] and [columns], which the source does not use, are left
    out, and so is the text of the liquid class. *)
Definition generate_transfer_step (step_num : nat) (volume : Q)
    (source_tube : string) (dest_wells : list cell) : Step :=
  let '(pipette, pipette_type) := select_pipette volume in
  mkStep step_num pipette pipette_type volume source_tube dest_wells.

(** The loop over the transfers, with its step counter. *)
Fixpoint steps_loop (transfers : list Transfer) (step_counter : nat)
  : list Step :=
  match transfers with
  | [] => []
  | transfer :: transfers' =>
      if 0 <? count transfer then
        generate_transfer_step step_counter (volume transfer)
          (source_tube transfer) (wells transfer)
        :: steps_loop transfers' (S step_counter)
      else steps_loop transfers' step_counter
  end.

(** The positions are read before the index is reset; the unused
    argument [segment_idx] is left out. *)
Definition generate_protocol_steps_for_segment (df_segment : DataFrame)
    (binding : dict string) : result (list Step) :=
  let well_positions := get_well_positions df_segment in
  let df_segment := reset_index df_segment in
  rbind (group_by_reagent_and_volume df_segment binding well_positions)
    (fun transfers => Ok (steps_loop transfers 1)).

(** The environment of a run: the input file, the clock read by
    [generate_protocol_header], and whether a file can be written. *)
Record World : Type := mkWorld {
  csv_exists : bool;                (* os.path.exists(CSV_FILE_PATH) *)
  csv_table : option DataFrame;     (* pd.read_csv; None when it raises *)
  clock : nat -> string;            (* the timestamp of the k-th header *)
  write_ok : path -> bool           (* open(..., 'w') and write succeed *)
}.

(** [read_csv_data]: any exception of [pd.read_csv] is caught. *)
Definition read_csv_data (w : World) : Py (option DataFrame) :=
  match csv_table w with
  | Some df =>
      (emit (MsgLoaded (len (rows df)) (columns df)) ;;; ret (Some df))%py
  | None => (emit MsgReadError ;;; ret None)%py
  end.

(** The header reads the clock once; this is its only use. *)
Definition generate_protocol_header (w : World) (segment_idx : nat)
    (segment_num total_segments wells_in_segment : nat) : Header :=
  mkHeader segment_num total_segments wells_in_segment (clock w segment_idx).

(** The loop over [enumerate(segments)] of [generate_full_protocol]. A
    failed write is caught and reported, and the file is not recorded; an
    exception of the step generation is not caught. The creation of the
    output directory and the constant labware and liquid sections of the
    text are not part of the model. *)
Fixpoint files_loop (w : World) (binding : dict string) (total_segments : nat)
    (segments : list DataFrame) (segment_idx : nat)
    (generated_files : list path) : Py (list path) :=
  match segments with
  | [] => ret generated_files
  | df_segment :: segments' =>
      let segment_num := segment_idx + 1 in
      let wells_in_segment := len (rows df_segment) in
      let segment_file_path :=
        if 1 <? total_segments then SegmentFile segment_num else OutputFile in
      (emit (MsgGenerating segment_num total_segments wells_in_segment
               segment_file_path) ;;;
       let hd := generate_protocol_header w segment_idx segment_num
                   total_segments wells_in_segment in
       body <- lift (generate_protocol_steps_for_segment df_segment binding) ;;
       let protocol_code := mkProgram hd body in
       generated_files' <-
         (if write_ok w segment_file_path then
            emit (Wrote segment_file_path protocol_code) ;;;
            emit (MsgSaved segment_num) ;;;
            ret (generated_files ++ [segment_file_path])
          else
            emit (MsgWriteError segment_num) ;;; ret generated_files) ;;
       files_loop w binding total_segments segments' (S segment_idx)
         generated_files')%py
  end.

(** [generate_full_protocol]: [None] when the table cannot be read. *)
Definition generate_full_protocol (w : World) : Py (option (list path)) :=
  (emit MsgProcessing ;;;
   df <- read_csv_data w ;;
   match df with
   | None => ret None
   | Some df =>
       df_filtered <- filter_valid_wells df ;;
       binding <- identify_columns df_filtered ;;
       segments <- segment_data df_filtered max_wells_default ;;
       let total_segments := len segments in
       generated_files <- files_loop w binding total_segments segments 0 [] ;;
       ret (Some generated_files)
   end)%py.

(** [if generated_files:] is the truth value of the returned object. *)
Definition truthy (generated_files : option (list path)) : bool :=
  match generated_files with
  | Some (_ :: _) => true
  | Some [] | None => false
  end.

(** [main]; the re-reading of the written files for their line counts is
    part of the completion summary. *)
Definition main (w : World) : Py unit :=
  (emit MsgBanner ;;;
   if negb (csv_exists w) then emit MsgNotFound
   else
     generated_files <- generate_full_protocol w ;;
     if truthy generated_files then
       match generated_files with
       | Some files => emit (MsgCompleted files)
       | None => ret tt
       end
     else emit MsgFailed)%py.

(** ** The text of a step, the header and the constant sections *)

(** The source list of [generate_transfer_step]: the tube once, then once
    more [len(dest_wells) - 1] times; a string repeated a negative number
    of times is empty. *)
Definition source_list (source_tube : string) (dest_wells : list cell)
  : list string :=
  source_tube :: repeat source_tube (len dest_wells - 1).

(** The tip rack and the flow rate that [generate_liquid_class] selects. *)
Definition liquid_class_tip_rack (pipette_type : string) : string :=
  if String.eqb pipette_type "p20_single_gen2"
  then "opentrons/opentrons_96_filtertiprack_20ul/1"
  else "opentrons/opentrons_96_filtertiprack_200ul/1".

Definition liquid_class_flow_rate (pipette_type : string) : Q :=
  if String.eqb pipette_type "p20_single_gen2" then 756 # 100 else 464 # 10.

(** The mix volume of the liquid class: [min(20, volume // 2)]. *)
Definition mix_volume (volume : Q) : Z :=
  Z.min 20 (Qfloor (volume / 2)).

(** The dict [METADATA]. *)
Record Metadata : Type := mkMetadata {
  protocolName : string;
  author : string;
  description : string;
  apiLevel : string
}.

Definition METADATA : Metadata :=
  mkMetadata "Auto-Generated Cloud Point Protocol" "Python Generator"
    "Auto-generated dilution series for CP test from CSV data" "2.24".

(** The protocol name that [generate_protocol_header] writes. *)
Definition protocol_name (md : Metadata) (segment_num total_segments : nat)
  : string :=
  if 1 <? total_segments then
    protocolName md ++ " - Segment " ++ PyStr.of_nat segment_num ++ "/"
      ++ PyStr.of_nat total_segments
  else protocolName md.

(** The description that [generate_protocol_header] writes. *)
Definition header_description (md : Metadata)
    (segment_num wells_in_segment : nat) : string :=
  description md ++ " (Segment " ++ PyStr.of_nat segment_num ++ ": "
    ++ PyStr.of_nat wells_in_segment ++ " wells)".

(** [if name:] on an optional string argument. *)
Definition given (arg : option string) : bool :=
  match arg with
  | Some (String _ _) => true
  | _ => false
  end.

Definition or_keep (arg : option string) (old : string) : string :=
  match arg with
  | Some s => if given arg then s else old
  | None => old
  end.

(** [update_metadata]: the new value of [METADATA], which is also what
    the function prints. *)
Definition update_metadata (md : Metadata)
    (name author' description' : option string) : Metadata :=
  mkMetadata (or_keep name (protocolName md)) (or_keep author' (author md))
    (or_keep description' (description md)) (apiLevel md).

(** One entry of [LIQUID_DEFINITIONS]. *)
Record LiquidInfo : Type := mkLiquid {
  liquid_name : string;
  liquid_description : string;
  liquid_color : string;
  liquid_tube : string
}.

(** The dict [LIQUID_DEFINITIONS], in its order. *)
Definition LIQUID_DEFINITIONS : list (Liquid * LiquidInfo) :=
  [ (glycine, mkLiquid "2.4M Glycine" "in water" "#b925ff" "A1");
    (nacl, mkLiquid "5M NaCl" "in water" "#ffd600" "A2");
    (tris, mkLiquid "500mM Tris buffer" "in water" "#7eff42ff" "B1");
    (water, mkLiquid "water" "" "#50d5ffff" "B2") ].

(** [enumerate(l, start)] *)
Definition enumerate {A} (start : nat) (l : list A) : list (nat * A) :=
  combine (seq start (len l)) l.

(** [liquid_{i} = protocol.define_liquid(name, description, display_color)] *)
Record DefineLiquid : Type := mkDefine {
  defined_var : nat;
  defined_name : string;
  defined_description : string;
  defined_color : string
}.

(** [tube_rack_1.load_liquid(wells, liquid=liquid_{i}, volume)] *)
Record LoadLiquid : Type := mkLoad {
  load_wells : list string;
  load_var : nat;
  load_volume : Z
}.

(** [generate_liquid_definitions]: the definitions, then the loads. *)
Definition generate_liquid_definitions
  : list DefineLiquid * list LoadLiquid :=
  (map (fun il => mkDefine (fst il) (liquid_name (snd (snd il)))
                    (liquid_description (snd (snd il)))
                    (liquid_color (snd (snd il))))
       (enumerate 1 LIQUID_DEFINITIONS),
   map (fun il => mkLoad [liquid_tube (snd (snd il))] (fst il) 10000%Z)
       (enumerate 1 LIQUID_DEFINITIONS)).

(** One [protocol.load_labware] of [generate_labware_section]; the display
    label that tip racks 3 and 4 also carry is left out. *)
Record Labware : Type := mkLabware {
  labware_var : string;
  load_name : string;
  location : string;
  namespace : string;
  version : nat
}.

(** One [protocol.load_instrument] of [generate_labware_section]. *)
Record Instrument : Type := mkInstrument {
  instrument_var : string;
  instrument_name : string;
  mount : string;
  tip_racks : list string
}.

(** [generate_labware_section]: the labware, then the pipettes. *)
Definition generate_labware_section : list Labware * list Instrument :=
  ([ mkLabware "tip_rack_1" "opentrons_96_filtertiprack_20ul" "2"
       "opentrons" 1;
     mkLabware "tip_rack_2" "opentrons_96_filtertiprack_200ul" "3"
       "opentrons" 1;
     mkLabware "tube_rack_1"
       "opentrons_10_tuberack_falcon_4x50ml_6x15ml_conical" "1"
       "opentrons" 2;
     mkLabware "well_plate_1" "corning_96_wellplate_360ul_flat" "4"
       "opentrons" 3;
     mkLabware "tip_rack_3" "opentrons_96_filtertiprack_20ul" "5"
       "opentrons" 1;
     mkLabware "tip_rack_4" "opentrons_96_filtertiprack_200ul" "6"
       "opentrons" 1 ],
   [ mkInstrument "pipette_right" "p20_single_gen2" "right"
       ["tip_rack_1"; "tip_rack_3"];
     mkInstrument "pipette_left" "p300_single_gen2" "left"
       ["tip_rack_2"; "tip_rack_4"] ]).

(** * Vocabulary of the statements

    Predicates, closed forms and concrete tables used by the properties
    below. *)

(** [ceil(a / b)] on naturals. *)
Definition ceil_div (a b : nat) : nat := (a + b - 1) / b.

(** The segments of [segment_data], in closed form. *)
Definition slices (df : DataFrame) (k : nat) : list DataFrame :=
  map (fun i => iloc df (i * k) ((i + 1) * k))
      (seq 0 (ceil_div (len (rows df)) k)).

(** No string occurs twice in the list. *)
Fixpoint nodupb (l : list string) : bool :=
  match l with
  | [] => true
  | s :: l' => negb (existsb (String.eqb s) l') && nodupb l'
  end.

(** The labels of the first two grid rows. *)
Definition row_A : list string :=
  ["A1"; "A2"; "A3"; "A4"; "A5"; "A6"; "A7"; "A8"; "A9"; "A10"; "A11"; "A12"].
Definition row_B : list string :=
  ["B1"; "B2"; "B3"; "B4"; "B5"; "B6"; "B7"; "B8"; "B9"; "B10"; "B11"; "B12"].

(** The two results of [select_pipette]. *)
Definition low_volume : string * string := ("pipette_right", "p20_single_gen2").
Definition high_volume : string * string := ("pipette_left", "p300_single_gen2").

(** A cell that holds a number or is missing. *)
Definition numeric (c : cell) : Prop :=
  match c with
  | Str _ => False
  | _ => True
  end.

(** The cell holds a strictly positive number. *)
Definition positive_at (i : nat) (r : Row) : bool :=
  match cell_at i r with
  | Num q => Qlt_bool 0 q
  | _ => false
  end.

(** The validator's contract read on every table: whenever a column name
    contains the token, the call returns the rows that are strictly
    positive in the first such column. *)
Definition validator_returns_positive_rows (df : DataFrame) : Prop :=
  forall water_col i,
    find is_water_col (columns df) = Some water_col ->
    index_of water_col (columns df) = Some i ->
    exists out,
      filter_valid_wells df
      = (out, Ok (mkDF (columns df) (filter (positive_at i) (rows df)))).

(** A table whose water-named column holds a text. *)
Definition table_text_water : DataFrame :=
  mkDF ["V_gly"; "Water_source"]
       [ mkRow 0 [Num 5; Str "tap"];
         mkRow 1 [Num 10; Str "tap"] ].

(** A table with a numeric water column: rows 1 and 2 are dropped. *)
Definition table_water : DataFrame :=
  mkDF ["V_gly"; "V_Water"]
       [ mkRow 0 [Num 5; Num 90];
         mkRow 1 [Num 10; Num 0];
         mkRow 2 [Num 5; NaN];
         mkRow 3 [Num 10; Num (1 # 2)] ].

(** [[well_positions[idx] for idx in group.index]] *)
Definition lookup_wells (well_positions : list cell) (group : list Row)
  : result (list cell) :=
  rmap (fun r => well_at well_positions (label r)) group.

(** The transfers that one pass over the groups appends. *)
Fixpoint emitted (rg : Liquid) (tube : string) (well_positions : list cell)
    (groups : list (gkey * list Row)) : result (list Transfer) :=
  match groups with
  | [] => Ok []
  | (KStr _, _) :: _ => Raise TypeError
  | (KNum v, group) :: groups' =>
      if Qle_bool v 0 then emitted rg tube well_positions groups'
      else
        rbind (lookup_wells well_positions group) (fun ws =>
        rbind (emitted rg tube well_positions groups') (fun ts =>
          Ok (mkTransfer rg v tube ws (len ws) :: ts)))
  end.

(** The transfers of one reagent. *)
Definition per_reagent (df : DataFrame) (binding : dict string)
    (wp : list cell) (rg : Liquid) : result (list Transfer) :=
  match dict_get binding rg with
  | None => Ok []
  | Some col_name =>
      rbind (groupby df col_name) (emitted rg (tube_position rg) wp)
  end.

(** The rows of the frame that hold volume [v] in column [i]: the group of
    key [v]. *)
Definition contributing (df : DataFrame) (i : nat) (v : Q) : list Row :=
  filter (has_key i (KNum v)) (rows df).

(** What holds of a request of reagent [rg], bound to column [i]. *)
Record request_ok (df : DataFrame) (wp : list cell) (rg : Liquid) (i : nat)
    (t : Transfer) : Prop := {
  ok_reagent : reagent t = rg;
  ok_source : source_tube t = tube_position rg;
  ok_count : count t = len (wells t);
  ok_positive : (0 < volume t)%Q;
  ok_wells : Forall2 (fun r w => nth_error wp (label r) = Some w)
               (contributing df i (volume t)) (wells t)
}.

(** The groups of the given keys in column [i]. *)
Definition groups_of (df : DataFrame) (i : nat) (keys : list gkey)
  : list (gkey * list Row) :=
  map (fun k => (k, filter (has_key i k) (rows df))) keys.

(** The negation of the test [volume <= 0]. *)
Definition positive (v : Q) : bool := negb (Qle_bool v 0).

(** The position of the first occurrence of [rg] in [order]. *)
Fixpoint position_in (rg : Liquid) (order : list Liquid) : nat :=
  match order with
  | [] => 0
  | x :: order' => if Liquid_eqb x rg then 0 else S (position_in rg order')
  end.

(** The rank of a reagent in [reagent_order]. *)
Definition priority (rg : Liquid) : nat := position_in rg reagent_order.

(** Request [t] comes before request [t']: an earlier reagent, or the same
    reagent and a smaller volume. *)
Definition before (t t' : Transfer) : Prop :=
  priority (reagent t) < priority (reagent t') \/
  (reagent t = reagent t' /\ (volume t < volume t')%Q).

(** The programs written during a run, each with its list of routed
    requests. *)
Fixpoint written (tr : list event) : list (path * Program) :=
  match tr with
  | [] => []
  | Wrote p code :: tr' => (p, code) :: written tr'
  | _ :: tr' => written tr'
  end.

(** The caller tells the empty outcome from a failure: [main] reports a
    failure for the second world and none for the first. *)
Definition empty_outcome_distinguished (w_empty w_failed : World) : Prop :=
  ~ In MsgFailed (trace (main w_empty)) /\
  In MsgFailed (trace (main w_failed)).

(** A readable table all of whose rows are dropped by the validator. *)
Definition world_all_dropped : World :=
  mkWorld true
    (Some (mkDF ["V_gly"; "V_water"]
                [ mkRow 0 [Num 5; Num 0]; mkRow 1 [Num 10; Num (-3)] ]))
    (fun _ => "2025-01-01T00:00:00") (fun _ => true).

(** An input file that exists and cannot be parsed. *)
Definition world_unreadable : World :=
  mkWorld true None (fun _ => "2025-01-01T00:00:00") (fun _ => true).

(** The routed request sequences of a run: the steps of each written
    program, in the order of writing. *)
Definition routed_sequences (tr : list event) : list (path * list Step) :=
  map (fun pc => (fst pc, steps (snd pc))) (written tr).

(** Two computations with the same result and the same routed
    sequences. *)
Definition same_plan {A} (m1 m2 : Py A) : Prop :=
  outcome m1 = outcome m2 /\
  routed_sequences (trace m1) = routed_sequences (trace m2).

(** A segment of four rows that kept the index labels of its table: the
    last row has no glycine volume, the first no salt. *)
Definition example_segment : DataFrame :=
  mkDF ["Gly_2.4M"; "NaCl_5M"; "V_water"]
       [ mkRow 28 [Num 5; Num 0; Num 90];
         mkRow 29 [Num 10; Num 25; Num 65];
         mkRow 31 [Num 5; Num 25; Num 70];
         mkRow 32 [NaN; Num 25; Num 80] ].

(** The binding that [identify_columns] computes for it. *)
Definition example_binding : dict string :=
  [(glycine, "Gly_2.4M"); (nacl, "NaCl_5M"); (water, "V_water")].

(** The requests of the segment. *)
Definition example_transfers : list Transfer :=
  [ mkTransfer nacl 25 "A2" [Str "A2"; Str "A3"; Str "A4"] 3;
    mkTransfer glycine 5 "A1" [Str "A1"; Str "A3"] 2;
    mkTransfer glycine 10 "A1" [Str "A2"] 1;
    mkTransfer water 65 "B2" [Str "A2"] 1;
    mkTransfer water 70 "B2" [Str "A3"] 1;
    mkTransfer water 80 "B2" [Str "A4"] 1;
    mkTransfer water 90 "B2" [Str "A1"] 1 ].

(** Two runs on the table of [example_segment], an hour apart. *)
Definition world_morning : World :=
  mkWorld true (Some example_segment)
    (fun _ => "2025-01-01T09:00:00") (fun _ => true).

Definition world_later : World :=
  mkWorld true (Some example_segment)
    (fun _ => "2025-01-01T10:00:00") (fun _ => true).

(** A table of 30 rows: the glycine volume alternates between 5 and 10,
    the water volume is 50 except in row 15, where it is 0. *)
Definition table_thirty : DataFrame :=
  mkDF ["Gly_2.4M"; "V_water"]
       (map (fun i =>
               mkRow i [ Num (if Nat.even i then 5 else 10);
                         Num (if i =? 15 then 0 else 50) ])
            (seq 0 30)).

(** A run on that table in which every write succeeds. *)
Definition world_thirty : World :=
  mkWorld true (Some table_thirty)
    (fun _ => "2025-01-01T09:00:00") (fun _ => true).

(** Every bound column is a column of the frame and holds no text, and the
    index label of every row with a positive volume in a bound column is a
    position of [well_positions]. *)
Definition groupable (df : DataFrame) (binding : dict string)
    (wp : list cell) : Prop :=
  forall rg col,
    dict_get binding rg = Some col ->
    exists i,
      index_of col (columns df) = Some i /\
      (forall r, In r (rows df) -> numeric (cell_at i r)) /\
      (forall r, In r (rows df) -> positive_at i r = true ->
                 label r < len wp).

(** A step renders its request. *)
Definition renders (t : Transfer) (s : Step) : Prop :=
  step_volume s = volume t /\
  step_source s = source_tube t /\
  step_dest s = wells t /\
  (pipette s, pipette_type s) = select_pipette (volume t).

(** The path of segment number [k] in a run of [total] segments. *)
Definition segment_path (total k : nat) : path :=
  if 1 <? total then SegmentFile k else OutputFile.

(** The program written for the segment at position [j] of the run. *)
Definition program_of (w : World) (binding : dict string) (total : nat)
    (j : nat) (seg : DataFrame) (code : Program) : Prop :=
  header code = mkHeader (j + 1) total (len (rows seg)) (clock w j) /\
  generate_protocol_steps_for_segment seg binding = Ok (steps code).

(** The name contains [h2o] once lower-cased. *)
Definition is_h2o_col (col : string) : bool :=
  PyStr.contains "h2o" (PyStr.lower col).

(** A cell that the grouper passes over: missing, or a number at most 0. *)
Definition inert (c : cell) : Prop :=
  c = NaN \/ exists q, c = Num q /\ (q <= 0)%Q.

(** Two cells that are equal, or that the grouper both passes over. *)
Definition alike (c c' : cell) : Prop :=
  c = c' \/ (inert c /\ inert c').

(** Two rows with the same index label and alike cells in every column. *)
Definition row_alike (r r' : Row) : Prop :=
  label r = label r' /\ forall p, alike (cell_at p r) (cell_at p r').

(** A segment with a position column and a missing glycine volume. *)
Definition example_segment_wells : DataFrame :=
  mkDF ["Well"; "Gly_2.4M"]
       [ mkRow 4 [Str "C5"; Num 5];
         mkRow 5 [Str "C6"; NaN];
         mkRow 7 [Str "C7"; Num 5] ].

(** The same segment with the missing volume replaced by 0. *)
Definition example_segment_wells_zero : DataFrame :=
  mkDF ["Well"; "Gly_2.4M"]
       [ mkRow 4 [Str "C5"; Num 5];
         mkRow 5 [Str "C6"; Num 0];
         mkRow 7 [Str "C7"; Num 5] ].

(** * Properties *)

(** ** Reagents *)

Lemma Liquid_eqb_eq a b : Liquid_eqb a b = true <-> a = b.
Proof. destruct a, b; simpl; split; congruence. Qed.

(** ** The effect monad *)

Lemma outcome_emit {A} (e : event) (m : Py A) :
  outcome (emit e ;;; m)%py = outcome m.
Proof. unfold outcome, bind, emit; simpl. now destruct m. Qed.

Lemma trace_emit {A} (e : event) (m : Py A) :
  trace (emit e ;;; m)%py = e :: trace m.
Proof. unfold trace, bind, emit; simpl. now destruct m. Qed.

Lemma outcome_bind_ok {A B} (m : Py A) (k : A -> Py B) (a : A) :
  outcome m = Ok a -> outcome (bind m k) = outcome (k a).
Proof.
  destruct m as [out r]; unfold outcome; simpl; intros ->.
  now destruct (k a).
Qed.

Lemma outcome_bind_raise {A B} (m : Py A) (k : A -> Py B) (e : exn) :
  outcome m = Raise e -> outcome (bind m k) = Raise e.
Proof. destruct m as [out r]; unfold outcome; simpl; now intros ->. Qed.

(** ** Batcher *)

Lemma ceil_div_step (a b : nat) :
  0 < b -> 0 < a -> ceil_div a b = S (ceil_div (a - b) b).
Proof.
  intros Hb Ha. unfold ceil_div.
  replace (a + b - 1) with ((a - 1) + 1 * b) by lia.
  rewrite Nat.div_add by lia.
  destruct (le_lt_dec a b) as [Hle | Hlt].
  - replace (a - b + b - 1) with (b - 1) by lia.
    rewrite (Nat.div_small (a - 1)), (Nat.div_small (b - 1)) by lia. lia.
  - replace (a - b + b - 1) with (a - 1) by lia. lia.
Qed.

Lemma range_from_closed (fuel i stop step : nat) :
  0 < step -> stop - i <= fuel ->
  range_from fuel i stop step
  = map (fun j => i + j * step) (seq 0 (ceil_div (stop - i) step)).
Proof.
  intros Hstep. revert i.
  induction fuel as [| fuel IH]; intros i Hfuel.
  - replace (stop - i) with 0 by lia.
    unfold ceil_div. rewrite Nat.div_small by lia. reflexivity.
  - simpl. destruct (i <? stop) eqn:Hlt.
    + apply Nat.ltb_lt in Hlt.
      rewrite (ceil_div_step (stop - i) step) by lia.
      rewrite IH by lia. simpl. f_equal; [lia |].
      rewrite <- seq_shift, map_map.
      replace (stop - i - step) with (stop - (i + step)) by lia.
      apply map_ext. intros j. lia.
    + apply Nat.ltb_ge in Hlt.
      replace (stop - i) with 0 by lia.
      unfold ceil_div. rewrite Nat.div_small by lia. reflexivity.
Qed.

Lemma segment_loop_outcome (df : DataFrame) (k : nat) (starts : list nat)
    (acc : list DataFrame) :
  outcome (segment_loop df k starts acc)
  = Ok (acc ++ map (fun i => iloc df i (i + k)) starts).
Proof.
  revert acc. induction starts as [| i starts IH]; intros acc;
    cbn [segment_loop map].
  - unfold outcome, ret; simpl. now rewrite app_nil_r.
  - rewrite outcome_emit, IH, <- app_assoc. reflexivity.
Qed.

Lemma segment_data_outcome (df : DataFrame) (k : nat) :
  0 < k -> outcome (segment_data df k) = Ok (slices df k).
Proof.
  intros Hk. unfold segment_data, range.
  destruct (k =? 0) eqn:E; [apply Nat.eqb_eq in E; lia |].
  erewrite outcome_bind_ok by reflexivity.
  rewrite segment_loop_outcome. simpl.
  rewrite range_from_closed by lia.
  unfold slices. rewrite map_map, Nat.sub_0_r. f_equal.
  apply map_ext. intros i. f_equal; lia.
Qed.

Lemma iloc_rows (df : DataFrame) (i k : nat) :
  rows (iloc df (i * k) ((i + 1) * k)) = firstn k (skipn (i * k) (rows df)).
Proof. unfold iloc; simpl. f_equal. lia. Qed.

Lemma chunks_concat {A} (k : nat) (l : list A) (c i : nat) :
  0 < k -> len l <= (i + c) * k ->
  List.concat (map (fun j => firstn k (skipn (j * k) l)) (seq i c))
  = skipn (i * k) l.
Proof.
  intros Hk. revert i. induction c as [| c IH]; intros i Hlen; simpl.
  - symmetry. apply skipn_all2. lia.
  - rewrite IH by lia.
    replace (S i * k) with (k + i * k) by lia.
    rewrite <- skipn_skipn. apply firstn_skipn.
Qed.

Lemma ceil_div_covers (n k : nat) : 0 < k -> n <= ceil_div n k * k.
Proof.
  intros Hk. unfold ceil_div.
  pose proof (Nat.div_mod_eq (n + k - 1) k) as E.
  pose proof (Nat.mod_upper_bound (n + k - 1) k) as U. nia.
Qed.

Lemma slices_concat (df : DataFrame) (k : nat) :
  0 < k -> List.concat (map rows (slices df k)) = rows df.
Proof.
  intros Hk. unfold slices. rewrite map_map.
  rewrite (map_ext _ (fun j => firstn k (skipn (j * k) (rows df))))
    by (intros; apply iloc_rows).
  rewrite chunks_concat; [reflexivity | lia |].
  simpl. now apply ceil_div_covers.
Qed.

Lemma slices_nth (df : DataFrame) (k i : nat) :
  i < ceil_div (len (rows df)) k ->
  nth_error (slices df k) i = Some (iloc df (i * k) ((i + 1) * k)).
Proof.
  intros Hi. unfold slices.
  rewrite nth_error_map, nth_error_seq.
  apply Nat.ltb_lt in Hi. now rewrite Hi.
Qed.

Lemma nth_error_firstn_skipn {A} (l : list A) (k s j : nat) :
  nth_error (firstn k (skipn s l)) j
  = if j <? k then nth_error l (s + j) else None.
Proof.
  destruct (j <? k) eqn:E.
  - apply Nat.ltb_lt in E.
    rewrite nth_error_firstn. apply Nat.ltb_lt in E. rewrite E.
    apply nth_error_skipn.
  - apply Nat.ltb_ge in E. apply nth_error_None.
    rewrite length_firstn. lia.
Qed.

(** C1. With capacity 28, [segment_data] returns the segments in order;
    segment [i] has the frame's columns and exactly the rows at positions
    [i*28 .. (i+1)*28 - 1] of the input (those that exist), index labels
    kept; the segments concatenated are the input rows; there are
    [ceil(n/28)] of them: none for [n = 0], one for [n = 28], and two, of
    28 rows and 1 row, for [n = 29]. *)
Theorem segment_data_partition (df : DataFrame) :
  let n := len (rows df) in
  exists segments,
    outcome (segment_data df 28) = Ok segments /\
    len segments = (n + 27) / 28 /\
    (forall i, i < len segments ->
       exists seg,
         nth_error segments i = Some seg /\
         columns seg = columns df /\
         rows seg = firstn 28 (skipn (i * 28) (rows df)) /\
         (forall j, nth_error (rows seg) j
                    = if j <? 28 then nth_error (rows df) (i * 28 + j)
                      else None)) /\
    List.concat (map rows segments) = rows df /\
    (n = 0 -> segments = []) /\
    (n = 28 -> len segments = 1) /\
    (n = 29 -> map (fun seg => len (rows seg)) segments = [28; 1]).
Proof.
  intros n. exists (slices df 28).
  assert (Hceil : ceil_div n 28 = (n + 27) / 28).
  { unfold ceil_div. f_equal. lia. }
  assert (Hlen : len (slices df 28) = (n + 27) / 28).
  { unfold slices. rewrite length_map, length_seq. exact Hceil. }
  split; [apply segment_data_outcome; lia |].
  split; [exact Hlen |].
  split.
  { intros i Hi. rewrite Hlen in Hi.
    exists (iloc df (i * 28) ((i + 1) * 28)).
    split; [apply slices_nth; fold n; rewrite Hceil; exact Hi |].
    split; [reflexivity |].
    split; [apply iloc_rows |].
    intros j. rewrite iloc_rows. apply nth_error_firstn_skipn. }
  split; [apply slices_concat; lia |].
  split.
  { intros Hn. unfold slices. fold n. rewrite Hn. reflexivity. }
  split.
  { intros Hn. rewrite Hlen, Hn. reflexivity. }
  intros Hn. unfold slices. fold n. rewrite Hn.
  change (ceil_div 29 28) with 2. cbn [seq map].
  rewrite !iloc_rows, !length_firstn, !length_skipn. fold n. rewrite Hn.
  reflexivity.
Qed.

(** ** Well Assigner *)

Lemma synthesize_closed (rs : list Row) (i : nat) :
  synthesize rs i = map (fun j => Str (synthesized_well j)) (seq i (len rs)).
Proof.
  revert i. induction rs as [| r rs IH]; intros i; simpl; [reflexivity |].
  now rewrite IH.
Qed.

Lemma synthesized_well_grid (i : nat) :
  i < 96 ->
  synthesized_well i
  = (nth (i / 12) grid_rows "" ++ PyStr.of_nat (i mod 12 + 1))%string.
Proof.
  intros Hi. unfold synthesized_well.
  change (len grid_rows * len grid_cols) with 96.
  change (len grid_cols) with 12.
  apply Nat.ltb_lt in Hi. now rewrite Hi.
Qed.

Lemma nodupb_NoDup (l : list string) : nodupb l = true -> NoDup l.
Proof.
  induction l as [| s l IH]; simpl; intros H; constructor.
  - apply andb_prop in H. destruct H as [H _].
    intros Hin. apply negb_true_iff in H.
    assert (existsb (String.eqb s) l = true) as E; [| congruence].
    apply existsb_exists. exists s. split; [exact Hin | apply String.eqb_refl].
  - apply IH. now apply andb_prop in H.
Qed.

Lemma grid_names_NoDup : NoDup (map synthesized_well (seq 0 96)).
Proof. apply nodupb_NoDup. vm_compute. reflexivity. Qed.

Lemma NoDup_firstn {A} (n : nat) (l : list A) : NoDup l -> NoDup (firstn n l).
Proof.
  intros H. rewrite <- (firstn_skipn n l) in H.
  now apply NoDup_app_remove_r in H.
Qed.

Lemma firstn_seq (n start m : nat) :
  firstn n (seq start m) = seq start (Nat.min n m).
Proof.
  revert start m. induction n as [| n IH]; intros start [| m]; simpl;
    try reflexivity.
  now rewrite IH.
Qed.

Lemma synthesized_NoDup (n : nat) :
  n <= 96 -> NoDup (map (fun j => Str (synthesized_well j)) (seq 0 n)).
Proof.
  intros Hn.
  replace (seq 0 n) with (firstn n (seq 0 96))
    by (rewrite firstn_seq; f_equal; lia).
  rewrite <- (map_map synthesized_well Str).
  apply NoDup_map_NoDup_ForallPairs; [intros a b _ _ E; congruence |].
  rewrite <- firstn_map. apply NoDup_firstn, grid_names_NoDup.
Qed.

Lemma get_well_positions_synthesized (seg : DataFrame) :
  filter is_position_col (columns seg) = [] ->
  get_well_positions seg
  = map (fun j => Str (synthesized_well j)) (seq 0 (len (rows seg))).
Proof.
  intros H. unfold get_well_positions. rewrite H. apply synthesize_closed.
Qed.

Lemma slices_nonempty (df : DataFrame) (k i : nat) (seg : DataFrame) :
  0 < k -> nth_error (slices df k) i = Some seg ->
  columns seg = columns df /\ 0 < len (rows seg) <= k.
Proof.
  intros Hk H.
  assert (Hi : i < ceil_div (len (rows df)) k).
  { assert (Hlt : i < len (slices df k))
      by (apply nth_error_Some; congruence).
    unfold slices in Hlt. now rewrite length_map, length_seq in Hlt. }
  rewrite slices_nth in H by exact Hi. injection H as <-.
  split; [reflexivity |].
  rewrite iloc_rows, length_firstn, length_skipn.
  assert (i * k < len (rows df)); [| lia].
  unfold ceil_div in Hi.
  pose proof (Nat.div_mod_eq (len (rows df) + k - 1) k) as E.
  pose proof (Nat.mod_upper_bound (len (rows df) + k - 1) k) as U. nia.
Qed.

(** C2. For a segment without a position column, [get_well_positions]
    gives one position per row; row [i] of the segment (for [i < 96]) gets
    the label of grid row [i / 12] and column [i mod 12 + 1], so rows 0..11
    get A1..A12 and rows 12..23 get B1..B12; with at most 96 rows no
    position occurs twice; and every segment that [segment_data] cuts from a
    table starts again at A1, whichever its number. *)
Theorem get_well_positions_row_major (seg : DataFrame) :
  filter is_position_col (columns seg) = [] ->
  let n := len (rows seg) in
  let wp := get_well_positions seg in
  len wp = n /\
  (forall i, i < n -> i < 96 ->
     nth_error wp i
     = Some (Str (nth (i / 12) grid_rows ""
                  ++ PyStr.of_nat (i mod 12 + 1))%string)) /\
  firstn 12 wp = map Str (firstn n row_A) /\
  firstn 12 (skipn 12 wp) = map Str (firstn (n - 12) row_B) /\
  (n <= 96 -> NoDup wp) /\
  (forall df segments k,
     outcome (segment_data df 28) = Ok segments ->
     nth_error segments k = Some seg ->
     nth_error wp 0 = Some (Str "A1")).
Proof.
  intros Hpos n wp.
  assert (Hwp : wp = map (fun j => Str (synthesized_well j)) (seq 0 n))
    by (apply get_well_positions_synthesized; exact Hpos).
  split; [rewrite Hwp, length_map, length_seq; reflexivity |].
  split.
  { intros i Hi H96. rewrite Hwp, nth_error_map, nth_error_seq.
    apply Nat.ltb_lt in Hi. rewrite Hi. simpl.
    now rewrite synthesized_well_grid. }
  split.
  { rewrite Hwp, firstn_map, firstn_seq.
    destruct (le_lt_dec 12 n) as [H | H].
    - rewrite Nat.min_l by lia. rewrite (firstn_all2 (n := n)) by (simpl; lia).
      reflexivity.
    - rewrite Nat.min_r by lia.
      do 12 (destruct n as [| n]; [reflexivity |]). lia. }
  split.
  { rewrite Hwp, skipn_map, skipn_seq, firstn_map, firstn_seq.
    destruct (le_lt_dec 12 (n - 12)) as [H | H].
    - rewrite Nat.min_l by lia.
      rewrite (firstn_all2 (n := n - 12)) by (simpl; lia). reflexivity.
    - rewrite Nat.min_r by lia.
      remember (n - 12) as m eqn:Em. clear Em.
      do 12 (destruct m as [| m]; [reflexivity |]). lia. }
  split.
  { intros Hn. rewrite Hwp. now apply synthesized_NoDup. }
  intros df segments k Hseg Hk.
  rewrite segment_data_outcome in Hseg by lia. injection Hseg as <-.
  apply slices_nonempty in Hk; [| lia]. destruct Hk as [_ [Hk _]].
  rewrite Hwp. fold n in Hk. destruct n; [lia | reflexivity].
Qed.

(** ** Substring matching *)

Lemma prefix_spec (p s : string) :
  String.prefix p s = true <-> exists b, s = (p ++ b)%string.
Proof.
  revert s. induction p as [| c p IH]; intros [| c' s]; simpl.
  - split; [intros _; now exists EmptyString | reflexivity].
  - split; [intros _; now exists (String c' s) | reflexivity].
  - split; [discriminate | intros [b H]; discriminate].
  - destruct (ascii_dec c c') as [-> | Hne].
    + rewrite IH. split; intros [b H]; exists b; [now subst | now injection H].
    + split; [discriminate | intros [b H]; injection H; congruence].
Qed.

(** [contains] is the substring test. *)
Lemma contains_spec (p s : string) :
  PyStr.contains p s = true <-> exists a b, s = (a ++ p ++ b)%string.
Proof.
  induction s as [| c s IH]; cbn [PyStr.contains].
  - rewrite orb_false_r, prefix_spec. split.
    + intros [b H]. now exists EmptyString, b.
    + intros [a [b H]]. destruct a; [now exists b | discriminate].
  - rewrite orb_true_iff, prefix_spec, IH. split.
    + intros [[b H] | [a [b H]]].
      * now exists EmptyString, b.
      * exists (String c a), b. simpl. now rewrite H.
    + intros [a [b H]]. destruct a as [| c' a].
      * left. now exists b.
      * right. simpl in H. injection H as _ H. now exists a, b.
Qed.

Lemma find_first {A} (f : A -> bool) (l : list A) (x : A) :
  find f l = Some x <->
  exists pre post, l = pre ++ x :: post /\ f x = true /\
                   forall c, In c pre -> f c = false.
Proof.
  induction l as [| a l IH]; simpl.
  - split; [discriminate | intros [[| ? ?] [post [H _]]]; discriminate].
  - destruct (f a) eqn:Fa.
    + split.
      * intros H. injection H as <-. exists [], l. repeat split; auto.
        intros c [].
      * intros [pre [post [H [Fx Hpre]]]]. destruct pre as [| b pre].
        -- simpl in H. now injection H as ->.
        -- simpl in H. injection H as -> _.
           rewrite Hpre in Fa by now left. discriminate.
    + rewrite IH. split.
      * intros [pre [post [H [Fx Hpre]]]]. exists (a :: pre), post.
        repeat split; [simpl; now rewrite H | exact Fx |].
        intros c [<- | Hc]; auto.
      * intros [pre [post [H [Fx Hpre]]]]. destruct pre as [| b pre].
        -- simpl in H. injection H as -> _. congruence.
        -- simpl in H. injection H as -> ->. exists pre, post.
           repeat split; auto. intros c Hc. apply Hpre. now right.
Qed.

Lemma find_none_iff {A} (f : A -> bool) (l : list A) :
  find f l = None <-> forall c, In c l -> f c = false.
Proof.
  split; [apply find_none |].
  induction l as [| a l IH]; simpl; intros H; [reflexivity |].
  rewrite (H a) by now left. apply IH. intros c Hc. apply H. now right.
Qed.

(** ** Column Classifier *)

Lemma dict_get_set {V} (d : dict V) (k k' : Liquid) (v : V) :
  dict_get (dict_set d k v) k'
  = if Liquid_eqb k k' then Some v else dict_get d k'.
Proof.
  induction d as [| [k0 v0] d IH]; simpl.
  - reflexivity.
  - destruct (Liquid_eqb k0 k) eqn:E0; simpl.
    + apply Liquid_eqb_eq in E0. subst k0.
      now destruct (Liquid_eqb k k').
    + destruct (Liquid_eqb k0 k') eqn:E1.
      * apply Liquid_eqb_eq in E1. subst k0.
        destruct (Liquid_eqb k k') eqn:E2; [| reflexivity].
        apply Liquid_eqb_eq in E2. subst k.
        destruct k'; discriminate.
      * exact IH.
Qed.

Lemma scan_columns_get (liquid : Liquid) (pl : list string)
    (cols : list string) (binding : dict string) (k : Liquid) :
  dict_get (scan_columns liquid pl cols binding) k
  = if Liquid_eqb liquid k then
      match find (matches pl) cols with
      | Some c => Some c
      | None => dict_get binding k
      end
    else dict_get binding k.
Proof.
  induction cols as [| col cols IH]; simpl.
  - now destruct (Liquid_eqb liquid k).
  - destruct (matches pl col); [apply dict_get_set | exact IH].
Qed.

Lemma classify_get (cols : list string) (liquid : Liquid)
    (pl : list string) :
  In (liquid, pl) patterns ->
  dict_get (classify cols patterns) liquid = find (matches pl) cols.
Proof.
  intros H. unfold classify, patterns in *. cbn [fold_left fst snd].
  simpl in H.
  destruct H as [H | [H | [H | [H | []]]]]; injection H as <- <-;
    rewrite !scan_columns_get; cbn [Liquid_eqb dict_get];
    now destruct (find _ cols).
Qed.

Lemma matches_spec (pl : list string) (col : string) :
  matches pl col = true <->
  exists tok a b, In tok pl /\ PyStr.lower col = (a ++ tok ++ b)%string.
Proof.
  unfold matches, PyStr.contains_any. rewrite existsb_exists. split.
  - intros [tok [Hin H]]. apply contains_spec in H.
    destruct H as [a [b H]]. now exists tok, a, b.
  - intros [tok [a [b [Hin H]]]]. exists tok. split; [exact Hin |].
    apply contains_spec. now exists a, b.
Qed.

(** C8. For each reagent of the pattern table, [identify_columns] returns
    (without raising) a mapping that binds the reagent to the first column,
    in the table's column order, whose lower-cased name contains one of the
    reagent's tokens as a substring; when no column matches, the reagent
    has no entry in the mapping. *)
Theorem identify_columns_first_match (df : DataFrame) (liquid : Liquid)
    (pattern_list : list string) :
  In (liquid, pattern_list) patterns ->
  exists binding,
    outcome (identify_columns df) = Ok binding /\
    dict_get binding liquid = find (matches pattern_list) (columns df) /\
    (forall col,
       dict_get binding liquid = Some col <->
       exists pre post,
         columns df = pre ++ col :: post /\
         matches pattern_list col = true /\
         forall c, In c pre -> matches pattern_list c = false) /\
    (dict_get binding liquid = None <->
     forall c, In c (columns df) -> matches pattern_list c = false) /\
    (forall col,
       matches pattern_list col = true <->
       exists tok a b,
         In tok pattern_list /\ PyStr.lower col = (a ++ tok ++ b)%string).
Proof.
  intros Hin. exists (classify (columns df) patterns).
  split; [unfold identify_columns; now rewrite outcome_emit |].
  rewrite (classify_get _ _ _ Hin).
  split; [reflexivity |].
  split; [intros col; apply find_first |].
  split; [apply find_none_iff | intros col; apply matches_spec].
Qed.

(** ** Instrument Router *)

(** C5. [select_pipette] is a total function of the volume: a volume of at
    most 20 gives the p20 pipette and a volume above 20 the p300 pipette;
    equal volumes give the same pipette; 20 and 5 give the p20, 20.0001 the
    p300. *)
Theorem select_pipette_threshold (v : Q) :
  ((v <= 20)%Q -> select_pipette v = low_volume) /\
  ((20 < v)%Q -> select_pipette v = high_volume) /\
  (select_pipette v = low_volume \/ select_pipette v = high_volume) /\
  (forall v', (v == v')%Q -> select_pipette v = select_pipette v') /\
  select_pipette 20 = low_volume /\
  select_pipette (200001 # 10000) = high_volume /\
  select_pipette 5 = low_volume.
Proof.
  unfold select_pipette.
  repeat split; try reflexivity.
  - intros H. apply Qle_bool_iff in H. now rewrite H.
  - intros H. destruct (Qle_bool v 20) eqn:E; [| reflexivity].
    apply Qle_bool_iff in E. exfalso. now apply (Qlt_not_le _ _ H).
  - destruct (Qle_bool v 20); [now left | now right].
  - intros v' E. now rewrite E.
Qed.

(** ** Row Validator *)

Lemma find_filter_hd {A} (f : A -> bool) (l : list A) :
  find f l = hd_error (filter f l).
Proof.
  induction l as [| a l IH]; simpl; [reflexivity |].
  now destruct (f a).
Qed.

Lemma index_of_found (col : string) (cols : list string) :
  In col cols ->
  exists i, index_of col cols = Some i /\ nth_error cols i = Some col.
Proof.
  induction cols as [| c cols IH]; simpl; [intros [] |].
  intros H. destruct (String.eqb c col) eqn:E.
  - apply String.eqb_eq in E. subst c. now exists 0.
  - destruct H as [H | H]; [subst c; now rewrite String.eqb_refl in E |].
    destruct (IH H) as [i [Hi Hn]]. exists (S i). now rewrite Hi.
Qed.

Lemma boolean_index_map (f : Row -> bool) (rs : list Row) :
  boolean_index rs (map f rs) = filter f rs.
Proof.
  induction rs as [| r rs IH]; simpl; [reflexivity |].
  now rewrite IH.
Qed.

Lemma Qlt_bool_iff (a b : Q) : Qlt_bool a b = true <-> (a < b)%Q.
Proof.
  unfold Qlt_bool. rewrite negb_true_iff. split.
  - intros H. apply Qnot_le_lt. intros L.
    apply Qle_bool_iff in L. congruence.
  - intros H. destruct (Qle_bool b a) eqn:E; [| reflexivity].
    apply Qle_bool_iff in E. exfalso. now apply (Qlt_not_le _ _ H).
Qed.

Lemma positive_at_spec (i : nat) (r : Row) :
  positive_at i r = true <-> exists q, cell_at i r = Num q /\ (0 < q)%Q.
Proof.
  unfold positive_at. destruct (cell_at i r) as [q | | s].
  - rewrite Qlt_bool_iff. split; [intros H; now exists q |].
    intros [q' [E H]]. now injection E as ->.
  - split; [discriminate | intros [q [E _]]; discriminate].
  - split; [discriminate | intros [q [E _]]; discriminate].
Qed.

Lemma mask_numeric (i : nat) (rs : list Row) :
  (forall r, In r rs -> numeric (cell_at i r)) ->
  rmap (fun c => cell_gt c 0%Q) (map (cell_at i) rs)
  = Ok (map (positive_at i) rs).
Proof.
  induction rs as [| r rs IH]; simpl; intros H; [reflexivity |].
  rewrite IH by (intros r' Hr'; apply H; now right).
  pose proof (H r (or_introl eq_refl)) as Hr.
  unfold positive_at. now destruct (cell_at i r).
Qed.

Lemma mask_text (i : nat) (rs : list Row) (r : Row) (s : string) :
  In r rs -> cell_at i r = Str s ->
  rmap (fun c => cell_gt c 0%Q) (map (cell_at i) rs) = Raise TypeError.
Proof.
  induction rs as [| r' rs IH]; simpl; [intros [] |].
  intros [-> | Hin] E.
  - now rewrite E.
  - rewrite (IH Hin E). now destruct (cell_at i r').
Qed.

Lemma filter_valid_wells_no_column (df : DataFrame) :
  find is_water_col (columns df) = None ->
  filter_valid_wells df = ([MsgNoWaterColumn], Ok df).
Proof.
  intros H. unfold filter_valid_wells.
  rewrite find_filter_hd in H.
  destruct (filter is_water_col (columns df)); [reflexivity | discriminate].
Qed.

Lemma filter_valid_wells_column (df : DataFrame) (water_col : string) :
  find is_water_col (columns df) = Some water_col ->
  exists i,
    index_of water_col (columns df) = Some i /\
    nth_error (columns df) i = Some water_col /\
    filter_valid_wells df
    = bind (lift (rmap (fun c => cell_gt c 0%Q) (map (cell_at i) (rows df))))
        (fun mask =>
           let df_filtered :=
             mkDF (columns df) (boolean_index (rows df) mask) in
           (emit (MsgFiltered (len (rows df) - len (rows df_filtered))) ;;;
            emit (MsgRemaining (len (rows df_filtered))) ;;;
            ret df_filtered)%py).
Proof.
  intros H.
  destruct (index_of_found water_col (columns df)) as [i [Hi Hn]].
  { apply find_some in H. tauto. }
  exists i. split; [exact Hi |]. split; [exact Hn |].
  unfold filter_valid_wells. rewrite find_filter_hd in H.
  destruct (filter is_water_col (columns df)) as [| c l]; [discriminate |].
  injection H as ->. unfold series. rewrite Hi. reflexivity.
Qed.

(** C6, as stated, fails on a table whose first water-named column holds
    text: the comparison with 0 raises [TypeError] and no row set is
    returned. *)
Lemma filter_valid_wells_text_raises :
  filter_valid_wells table_text_water = ([], Raise TypeError) /\
  ~ validator_returns_positive_rows table_text_water.
Proof.
  split; [reflexivity |].
  intros H. destruct (H "Water_source" 1 eq_refl eq_refl) as [out E].
  vm_compute in E. discriminate.
Qed.

(** C6, amended. If some column name contains [water] once lower-cased and
    every value of the first such column is a number or missing, then
    [filter_valid_wells] returns the table's columns with exactly the rows
    whose value in that column is a strictly positive number, in their
    original order, after printing the two counts; if no column name
    contains the token, it returns the table unchanged and prints only the
    warning. *)
Theorem filter_valid_wells_numeric (df : DataFrame) :
  (forall water_col,
     find is_water_col (columns df) = Some water_col ->
     exists i,
       index_of water_col (columns df) = Some i /\
       nth_error (columns df) i = Some water_col /\
       ((forall r, In r (rows df) -> numeric (cell_at i r)) ->
        let kept := filter (positive_at i) (rows df) in
        filter_valid_wells df
        = ([MsgFiltered (len (rows df) - len kept); MsgRemaining (len kept)],
           Ok (mkDF (columns df) kept))) /\
       (forall r, positive_at i r = true <->
                  exists q, cell_at i r = Num q /\ (0 < q)%Q)) /\
  (find is_water_col (columns df) = None ->
   filter_valid_wells df = ([MsgNoWaterColumn], Ok df)) /\
  (forall col, is_water_col col = true <->
               exists a b, PyStr.lower col = (a ++ "water" ++ b)%string).
Proof.
  split; [| split].
  - intros water_col Hfind.
    destruct (filter_valid_wells_column df water_col Hfind)
      as [i [Hi [Hn Hcall]]].
    exists i. split; [exact Hi |]. split; [exact Hn |].
    split; [| intros r; apply positive_at_spec].
    intros Hnum kept. rewrite Hcall, mask_numeric by exact Hnum.
    unfold lift, bind, emit, ret; simpl.
    rewrite boolean_index_map. reflexivity.
  - apply filter_valid_wells_no_column.
  - intros col. apply contains_spec.
Qed.

Lemma filter_valid_wells_numeric_witness :
  filter_valid_wells table_water
  = ([MsgFiltered 2; MsgRemaining 2],
     Ok (mkDF ["V_gly"; "V_Water"]
              [ mkRow 0 [Num 5; Num 90]; mkRow 3 [Num 10; Num (1 # 2)] ])).
Proof.
  destruct (filter_valid_wells_numeric table_water) as [H _].
  destruct (H "V_Water" eq_refl) as [i [Hi [_ [Hcall _]]]].
  vm_compute in Hi. injection Hi as <-.
  apply Hcall.
  intros r [<- | [<- | [<- | [<- | []]]]]; exact I.
Defined.

(** ** Transfer Grouper *)

(** *** The keys of a numeric column *)

Lemma insert_key_In (q x : Q) (ks : list Q) :
  In x (insert_key q ks) -> x = q \/ In x ks.
Proof.
  induction ks as [| k ks IH]; simpl.
  - intros [<- | []]. now left.
  - destruct (q ?= k)%Q; simpl.
    + intros H. now right.
    + intros [<- | H]; [now left | now right].
    + intros [<- | H]; [right; now left |].
      destruct (IH H) as [-> | H']; [now left | right; now right].
Qed.

Lemma insert_key_keeps (q x : Q) (ks : list Q) :
  In x ks -> In x (insert_key q ks).
Proof.
  induction ks as [| k ks IH]; simpl; [intros [] |].
  intros H. destruct (q ?= k)%Q; simpl; [exact H | now right |].
  destruct H as [<- | H]; [now left | right; now apply IH].
Qed.

Lemma insert_key_has (q : Q) (ks : list Q) :
  exists k, In k (insert_key q ks) /\ (q == k)%Q.
Proof.
  induction ks as [| k ks IH]; simpl.
  - exists q. split; [now left | reflexivity].
  - destruct (q ?= k)%Q eqn:E.
    + exists k. split; [now left | now apply Qeq_alt].
    + exists q. split; [now left | reflexivity].
    + destruct IH as [k' [Hin Heq]]. exists k'. split; [now right | exact Heq].
Qed.

Lemma insert_key_sorted (q : Q) (ks : list Q) :
  StronglySorted Qlt ks -> StronglySorted Qlt (insert_key q ks).
Proof.
  induction ks as [| k ks IH]; simpl; intros H.
  - repeat constructor.
  - inversion H as [| ? ? Hs Hall]; subst.
    destruct (q ?= k)%Q eqn:E.
    + exact H.
    + apply Qlt_alt in E. constructor; [exact H |].
      constructor; [exact E |].
      rewrite Forall_forall in *. intros x Hx.
      eapply Qlt_trans; [exact E | now apply Hall].
    + apply Qgt_alt in E. constructor; [now apply IH |].
      rewrite Forall_forall in *. intros x Hx.
      destruct (insert_key_In _ _ _ Hx) as [-> | Hx']; [exact E | now apply Hall].
Qed.

Lemma numeric_keys_sorted (cs : list cell) :
  StronglySorted Qlt (numeric_keys cs).
Proof.
  induction cs as [| [q | | s] cs IH]; simpl; try exact IH.
  - constructor.
  - now apply insert_key_sorted.
Qed.

Lemma numeric_keys_sound (cs : list cell) (k : Q) :
  In k (numeric_keys cs) -> In (Num k) cs.
Proof.
  induction cs as [| [q | | s] cs IH]; simpl; intros H.
  - contradiction.
  - destruct (insert_key_In _ _ _ H) as [-> | H']; [now left | right; auto].
  - right; auto.
  - right; auto.
Qed.

Lemma numeric_keys_complete (cs : list cell) (q : Q) :
  In (Num q) cs -> exists k, In k (numeric_keys cs) /\ (q == k)%Q.
Proof.
  induction cs as [| c cs IH]; simpl; [intros [] |].
  intros [-> | H].
  - apply insert_key_has.
  - destruct (IH H) as [k [Hin Heq]]. exists k. split; [| exact Heq].
    destruct c; auto. now apply insert_key_keeps.
Qed.

(** *** The loops in closed form *)

Lemma volume_loop_emitted rg tube wp groups acc :
  volume_loop rg tube wp groups acc
  = rbind (emitted rg tube wp groups) (fun ts => Ok (acc ++ ts)).
Proof.
  revert acc. induction groups as [| [[v | s] group] groups IH]; intros acc;
    simpl.
  - now rewrite app_nil_r.
  - destruct (Qle_bool v 0); [apply IH |].
    unfold lookup_wells.
    destruct (rmap _ group) as [ws | e]; simpl; [| reflexivity].
    rewrite IH. destruct (emitted rg tube wp groups); simpl; [| reflexivity].
    now rewrite <- app_assoc.
  - reflexivity.
Qed.

Lemma reagent_loop_per_reagent df binding wp order acc ts :
  reagent_loop df binding wp order acc = Ok ts ->
  exists parts,
    Forall2 (fun rg part => per_reagent df binding wp rg = Ok part)
            order parts /\
    ts = acc ++ List.concat parts.
Proof.
  revert acc. induction order as [| rg order IH]; intros acc; simpl.
  - intros H. injection H as <-. exists []. split; [constructor |].
    simpl. now rewrite app_nil_r.
  - destruct (dict_get binding rg) as [col |] eqn:D.
    + destruct (groupby df col) as [gs | e] eqn:G; simpl; [| discriminate].
      rewrite volume_loop_emitted.
      destruct (emitted rg (tube_position rg) wp gs) as [part | e] eqn:E;
        simpl; [| discriminate].
      intros H. destruct (IH _ H) as [parts [HF ->]].
      exists (part :: parts). split.
      * constructor; [| exact HF].
        unfold per_reagent. rewrite D, G. exact E.
      * simpl. now rewrite app_assoc.
    + intros H. destruct (IH _ H) as [parts [HF ->]].
      exists ([] :: parts). split; [| reflexivity].
      constructor; [| exact HF]. unfold per_reagent. now rewrite D.
Qed.

Lemma rmap_Forall2 {A B} (f : A -> result B) (l : list A) (ys : list B) :
  rmap f l = Ok ys -> Forall2 (fun x y => f x = Ok y) l ys.
Proof.
  revert ys. induction l as [| a l IH]; simpl; intros ys H.
  - injection H as <-. constructor.
  - destruct (f a) as [b | e] eqn:Fa; simpl in H; [| discriminate].
    destruct (rmap f l) as [bs | e]; simpl in H; [| discriminate].
    injection H as <-. constructor; [exact Fa | now apply IH].
Qed.

Lemma well_at_Some (wp : list cell) (idx : nat) (w : cell) :
  well_at wp idx = Ok w <-> nth_error wp idx = Some w.
Proof.
  unfold well_at. destruct (nth_error wp idx); split; congruence.
Qed.

Lemma has_key_num (i : nat) (v : Q) (r : Row) :
  has_key i (KNum v) r = true <->
  exists q, cell_at i r = Num q /\ (q == v)%Q.
Proof.
  unfold has_key. destruct (cell_at i r) as [q | | s].
  - rewrite Qeq_bool_iff. split; [intros H; now exists q |].
    intros [q' [E H]]. now injection E as ->.
  - split; [discriminate | intros [q [E _]]; discriminate].
  - split; [discriminate | intros [q [E _]]; discriminate].
Qed.

Lemma emitted_numeric df wp rg i (vs : list Q) (rest : list gkey) ts :
  emitted rg (tube_position rg) wp (groups_of df i (map KNum vs ++ rest))
  = Ok ts ->
  exists ts1 ts2,
    ts = ts1 ++ ts2 /\
    map volume ts1 = filter positive vs /\
    Forall (request_ok df wp rg i) ts1 /\
    emitted rg (tube_position rg) wp (groups_of df i rest) = Ok ts2.
Proof.
  revert ts. induction vs as [| v vs IH]; intros ts; simpl.
  - intros H. exists [], ts. repeat split; auto.
  - unfold positive at 1. destruct (Qle_bool v 0) eqn:Hv; simpl.
    + apply IH.
    + unfold lookup_wells.
      destruct (rmap _ (filter _ (rows df))) as [ws | e] eqn:W; simpl;
        [| discriminate].
      fold (groups_of df i (map KNum vs ++ rest)).
      destruct (emitted _ _ _ (groups_of df i (map KNum vs ++ rest)))
        as [ts' | e] eqn:E; simpl; [| discriminate].
      intros H. injection H as <-.
      destruct (IH _ eq_refl) as [ts1 [ts2 [-> [Hvol [Hok Hrest]]]]].
      exists (mkTransfer rg v (tube_position rg) ws (len ws) :: ts1), ts2.
      repeat split; simpl; auto; [now rewrite Hvol |].
      constructor; [| exact Hok].
      constructor; simpl; auto.
      * apply Qnot_le_lt. intros L. apply Qle_bool_iff in L. congruence.
      * apply rmap_Forall2 in W. unfold contributing.
        eapply Forall2_impl; [| exact W].
        intros r w. apply well_at_Some.
Qed.

Lemma emitted_text df wp rg i (ss : list string) ts :
  emitted rg (tube_position rg) wp (groups_of df i (map KStr ss)) = Ok ts ->
  ts = [].
Proof.
  destruct ss; simpl; [congruence | discriminate].
Qed.

Lemma per_reagent_bound df binding wp rg col part :
  dict_get binding rg = Some col ->
  per_reagent df binding wp rg = Ok part ->
  exists i,
    index_of col (columns df) = Some i /\
    map volume part
    = filter positive (numeric_keys (map (cell_at i) (rows df))) /\
    Forall (request_ok df wp rg i) part.
Proof.
  intros D. unfold per_reagent, groupby. rewrite D.
  destruct (index_of col (columns df)) as [i |]; simpl; [| discriminate].
  intros H. exists i. split; [reflexivity |].
  match type of H with
  | emitted _ _ _ (map ?f (?a ++ ?b)) = _ =>
      change (map f (a ++ b)) with (groups_of df i (a ++ b)) in H
  end.
  apply emitted_numeric in H.
  destruct H as [ts1 [ts2 [-> [Hvol [Hok Hrest]]]]].
  apply emitted_text in Hrest. subst ts2.
  rewrite app_nil_r. now split.
Qed.

Lemma per_reagent_unbound df binding wp rg part :
  dict_get binding rg = None ->
  per_reagent df binding wp rg = Ok part -> part = [].
Proof. intros D. unfold per_reagent. rewrite D. congruence. Qed.

(** The output of the grouper, reagent by reagent. *)
Lemma group_by_parts df binding wp ts :
  group_by_reagent_and_volume df binding wp = Ok ts ->
  exists p_tris p_nacl p_glycine p_water,
    ts = p_tris ++ p_nacl ++ p_glycine ++ p_water /\
    per_reagent df binding wp tris = Ok p_tris /\
    per_reagent df binding wp nacl = Ok p_nacl /\
    per_reagent df binding wp glycine = Ok p_glycine /\
    per_reagent df binding wp water = Ok p_water.
Proof.
  intros H. apply reagent_loop_per_reagent in H.
  destruct H as [parts [HF ->]].
  unfold reagent_order in HF.
  inversion HF as [| ? p1 ? l1 H1 HF1]; subst.
  inversion HF1 as [| ? p2 ? l2 H2 HF2]; subst.
  inversion HF2 as [| ? p3 ? l3 H3 HF3]; subst.
  inversion HF3 as [| ? p4 ? l4 H4 HF4]; subst.
  inversion HF4; subst.
  exists p1, p2, p3, p4. simpl. rewrite app_nil_r. auto.
Qed.

Lemma group_by_In df binding wp ts t :
  group_by_reagent_and_volume df binding wp = Ok ts ->
  In t ts ->
  exists rg part, per_reagent df binding wp rg = Ok part /\ In t part.
Proof.
  intros H Hin. apply group_by_parts in H.
  destruct H as [p1 [p2 [p3 [p4 [-> [H1 [H2 [H3 H4]]]]]]]].
  rewrite !in_app_iff in Hin.
  destruct Hin as [Hin | [Hin | [Hin | Hin]]]; eauto.
Qed.

Lemma group_by_part df binding wp ts rg :
  group_by_reagent_and_volume df binding wp = Ok ts ->
  exists part, per_reagent df binding wp rg = Ok part /\
               forall t, In t part -> In t ts.
Proof.
  intros H. apply group_by_parts in H.
  destruct H as [p1 [p2 [p3 [p4 [-> [H1 [H2 [H3 H4]]]]]]]].
  destruct rg; eexists; (split; [eassumption |]); intros t Hin;
    rewrite !in_app_iff; tauto.
Qed.

Lemma request_in_output df binding wp ts t :
  group_by_reagent_and_volume df binding wp = Ok ts ->
  In t ts ->
  exists col i,
    dict_get binding (reagent t) = Some col /\
    index_of col (columns df) = Some i /\
    request_ok df wp (reagent t) i t.
Proof.
  intros H Hin. destruct (group_by_In _ _ _ _ _ H Hin) as [rg [part [Hp Ht]]].
  destruct (dict_get binding rg) as [col |] eqn:D.
  - destruct (per_reagent_bound _ _ _ _ _ _ D Hp) as [i [Hi [_ Hok]]].
    rewrite Forall_forall in Hok. specialize (Hok t Ht).
    rewrite (ok_reagent _ _ _ _ _ Hok). now exists col, i.
  - apply (per_reagent_unbound _ _ _ _ _ D) in Hp. subst part. contradiction.
Qed.

Lemma contributing_spec df i v r :
  In r (contributing df i v) <->
  In r (rows df) /\ exists q, cell_at i r = Num q /\ (q == v)%Q.
Proof.
  unfold contributing. rewrite filter_In, has_key_num. reflexivity.
Qed.

Lemma Forall2_In_left {A B} (R : A -> B -> Prop) l l' x :
  Forall2 R l l' -> In x l -> exists y, In y l' /\ R x y.
Proof.
  induction 1 as [| a b l l' Hab HF IH]; simpl; [intros [] |].
  intros [<- | Hin]; [exists b; auto |].
  destruct (IH Hin) as [y [Hy HR]]. exists y; auto.
Qed.

Lemma Forall2_In_right {A B} (R : A -> B -> Prop) l l' y :
  Forall2 R l l' -> In y l' -> exists x, In x l /\ R x y.
Proof.
  induction 1 as [| a b l l' Hab HF IH]; simpl; [intros [] |].
  intros [<- | Hin]; [exists a; auto |].
  destruct (IH Hin) as [x [Hx HR]]. exists x; auto.
Qed.

Lemma positive_spec (v : Q) : positive v = true <-> (0 < v)%Q.
Proof.
  unfold positive. rewrite negb_true_iff. split.
  - intros H. apply Qnot_le_lt. intros L. apply Qle_bool_iff in L. congruence.
  - intros H. destruct (Qle_bool v 0) eqn:E; [| reflexivity].
    apply Qle_bool_iff in E. exfalso. now apply (Qlt_not_le _ _ H).
Qed.

(** Every row with a positive volume is in the group of some request. *)
Lemma positive_row_grouped df binding wp ts rg col i r q :
  group_by_reagent_and_volume df binding wp = Ok ts ->
  dict_get binding rg = Some col ->
  index_of col (columns df) = Some i ->
  In r (rows df) -> cell_at i r = Num q -> (0 < q)%Q ->
  exists t,
    In t ts /\ reagent t = rg /\ (q == volume t)%Q /\
    In r (contributing df i (volume t)) /\
    request_ok df wp rg i t.
Proof.
  intros H D Hi Hr Hc Hq.
  destruct (group_by_part _ _ _ _ rg H) as [part [Hp Hsub]].
  destruct (per_reagent_bound _ _ _ _ _ _ D Hp) as [i' [Hi' [Hvol Hok]]].
  assert (i' = i) by congruence. subst i'.
  destruct (numeric_keys_complete (map (cell_at i) (rows df)) q)
    as [k [Hk Hqk]].
  { rewrite <- Hc. now apply in_map. }
  assert (Hin : In k (map volume part)).
  { rewrite Hvol. apply filter_In. split; [exact Hk |].
    apply positive_spec. now rewrite <- Hqk. }
  apply in_map_iff in Hin. destruct Hin as [t [Hv Ht]].
  rewrite Forall_forall in Hok.
  exists t. split; [now apply Hsub |].
  split; [apply (ok_reagent _ _ _ _ _ (Hok t Ht)) |].
  split; [now rewrite Hv |].
  split; [| now apply Hok].
  apply contributing_spec. split; [exact Hr |].
  exists q. split; [exact Hc | now rewrite Hv].
Qed.

(** C3. Every request that the grouper returns is for a reagent bound to a
    column; its source tube is the one fixed for the reagent; its volume is
    strictly positive; its wells are, in order, the positions of exactly
    the rows whose value in the bound column equals its volume, so that no
    row with a value at most 0 contributes; and for each bound reagent the
    wells of all its requests are exactly the positions of the rows with
    a strictly positive value in the bound column. *)
Theorem group_by_requests_uniform (df : DataFrame) (binding : dict string)
    (wp : list cell) (ts : list Transfer) :
  group_by_reagent_and_volume df binding wp = Ok ts ->
  (forall t, In t ts ->
     exists col i,
       dict_get binding (reagent t) = Some col /\
       index_of col (columns df) = Some i /\
       source_tube t = tube_position (reagent t) /\
       (0 < volume t)%Q /\
       count t = len (wells t) /\
       Forall2 (fun r w => nth_error wp (label r) = Some w)
         (contributing df i (volume t)) (wells t) /\
       (forall r, In r (contributing df i (volume t)) <->
                  In r (rows df) /\
                  exists q, cell_at i r = Num q /\ (q == volume t)%Q) /\
       (forall r q, cell_at i r = Num q -> (q <= 0)%Q ->
                    ~ In r (contributing df i (volume t)))) /\
  (forall rg col i,
     dict_get binding rg = Some col ->
     index_of col (columns df) = Some i ->
     forall w,
       (exists t, In t ts /\ reagent t = rg /\ In w (wells t)) <->
       (exists r q, In r (rows df) /\ cell_at i r = Num q /\ (0 < q)%Q /\
                    nth_error wp (label r) = Some w)).
Proof.
  intros H. split.
  - intros t Hin.
    destruct (request_in_output _ _ _ _ _ H Hin) as [col [i [D [Hi Hok]]]].
    exists col, i. destruct Hok as [_ Hs Hc Hp Hw].
    repeat (split; [assumption |]).
    split; [intros r; apply contributing_spec |].
    intros r q Hc' Hq Hr. apply contributing_spec in Hr.
    destruct Hr as [_ [q' [E Heq]]].
    assert (q' = q) by congruence. subst q'.
    rewrite Heq in Hq. now apply (Qlt_not_le _ _ Hp).
  - intros rg col i D Hi w. split.
    + intros [t [Hin [Hrg Hw]]].
      destruct (request_in_output _ _ _ _ _ H Hin) as [col' [i' [D' [Hi' Hok]]]].
      rewrite Hrg in D'. assert (col' = col) by congruence. subst col'.
      assert (i' = i) by congruence. subst i'.
      destruct (Forall2_In_right _ _ _ _ (ok_wells _ _ _ _ _ Hok) Hw)
        as [r [Hr Hn]].
      apply contributing_spec in Hr. destruct Hr as [Hr [q [Hc Heq]]].
      exists r, q. repeat split; auto.
      rewrite Heq. apply (ok_positive _ _ _ _ _ Hok).
    + intros [r [q [Hr [Hc [Hq Hn]]]]].
      destruct (positive_row_grouped _ _ _ _ _ _ _ _ _ H D Hi Hr Hc Hq)
        as [t [Hin [Hrg [_ [Hcon Hok]]]]].
      exists t. repeat split; auto.
      destruct (Forall2_In_left _ _ _ _ (ok_wells _ _ _ _ _ Hok) Hcon)
        as [w' [Hw' Hn']].
      congruence.
Qed.

(** *** The order of the requests *)

Lemma StronglySorted_filter {A} (R : A -> A -> Prop) (f : A -> bool) l :
  StronglySorted R l -> StronglySorted R (filter f l).
Proof.
  induction 1 as [| a l Hs IH Hall]; simpl; [constructor |].
  destruct (f a); [| exact IH].
  constructor; [exact IH |].
  rewrite Forall_forall in *. intros x Hx. apply Hall.
  now apply filter_In in Hx.
Qed.

Lemma StronglySorted_app {A} (R : A -> A -> Prop) l1 l2 :
  StronglySorted R l1 -> StronglySorted R l2 ->
  (forall x y, In x l1 -> In y l2 -> R x y) ->
  StronglySorted R (l1 ++ l2).
Proof.
  induction 1 as [| a l Hs IH Hall]; simpl; intros H2 Hc; [exact H2 |].
  constructor.
  - apply IH; [exact H2 |]. intros x y Hx Hy. apply Hc; [now right | exact Hy].
  - rewrite Forall_forall in *. intros x Hx.
    apply in_app_iff in Hx. destruct Hx as [Hx | Hx]; [now apply Hall |].
    apply Hc; [now left | exact Hx].
Qed.

Lemma StronglySorted_nth {A} (R : A -> A -> Prop) l a b x y :
  StronglySorted R l -> a < b ->
  nth_error l a = Some x -> nth_error l b = Some y -> R x y.
Proof.
  intros Hs. revert a b. induction Hs as [| h l Hs IH Hall]; intros a b Hab Ha Hb.
  - destruct a; discriminate.
  - destruct b as [| b]; [lia |]. simpl in Hb.
    destruct a as [| a]; simpl in Ha.
    + injection Ha as <-. rewrite Forall_forall in Hall.
      apply Hall. eapply nth_error_In; eassumption.
    + apply (IH a b); [lia | assumption | assumption].
Qed.

Lemma part_sorted df wp rg i part :
  map volume part = filter positive (numeric_keys (map (cell_at i) (rows df))) ->
  Forall (request_ok df wp rg i) part ->
  StronglySorted before part.
Proof.
  intros Hvol Hok.
  assert (Hs : StronglySorted Qlt (map volume part)).
  { rewrite Hvol. apply StronglySorted_filter, numeric_keys_sorted. }
  clear Hvol. induction part as [| t part IH]; [constructor |].
  simpl in Hs. inversion Hs as [| ? ? Hs' Hall]; subst.
  inversion Hok as [| ? ? Ht Hok']; subst.
  constructor; [now apply IH |].
  rewrite Forall_forall in *. intros t' Ht'. right. split.
  - rewrite (ok_reagent _ _ _ _ _ Ht).
    now rewrite (ok_reagent _ _ _ _ _ (Hok' t' Ht')).
  - apply Hall. now apply in_map.
Qed.

Lemma per_reagent_sorted df binding wp rg part :
  per_reagent df binding wp rg = Ok part ->
  StronglySorted before part /\ forall t, In t part -> reagent t = rg.
Proof.
  intros Hp. destruct (dict_get binding rg) as [col |] eqn:D.
  - destruct (per_reagent_bound _ _ _ _ _ _ D Hp) as [i [_ [Hvol Hok]]].
    split; [eapply part_sorted; eassumption |].
    rewrite Forall_forall in Hok. intros t Ht.
    apply (ok_reagent _ _ _ _ _ (Hok t Ht)).
  - apply (per_reagent_unbound _ _ _ _ _ D) in Hp. subst part.
    split; [constructor | intros t []].
Qed.

Lemma group_by_sorted df binding wp ts :
  group_by_reagent_and_volume df binding wp = Ok ts ->
  StronglySorted before ts.
Proof.
  intros H. apply group_by_parts in H.
  destruct H as [p1 [p2 [p3 [p4 [-> [H1 [H2 [H3 H4]]]]]]]].
  apply per_reagent_sorted in H1, H2, H3, H4.
  destruct H1 as [S1 R1], H2 as [S2 R2], H3 as [S3 R3], H4 as [S4 R4].
  repeat apply StronglySorted_app; try assumption;
    intros x y Hx Hy; left; rewrite ?in_app_iff in Hy;
    repeat match goal with
    | H : _ \/ _ |- _ => destruct H
    end;
    repeat match goal with
    | R : forall t, In t ?p -> reagent t = _, H : In ?x ?p |- _ =>
        rewrite (R x H); clear H
    end; unfold priority; simpl; lia.
Qed.

(** C4. The requests come out in a fixed order: the reagents in the order
    tris, nacl, glycine, water, whatever the table and its column order;
    the requests of one reagent by strictly ascending volume; and the wells
    of a request in the order of the rows of the segment that hold its
    volume. *)
Theorem group_by_canonical_order (df : DataFrame) (binding : dict string)
    (wp : list cell) (ts : list Transfer) :
  group_by_reagent_and_volume df binding wp = Ok ts ->
  reagent_order = [tris; nacl; glycine; water] /\
  StronglySorted before ts /\
  (forall a b t t',
     a < b -> nth_error ts a = Some t -> nth_error ts b = Some t' ->
     position_in (reagent t) reagent_order
     <= position_in (reagent t') reagent_order /\
     (reagent t = reagent t' -> (volume t < volume t')%Q)) /\
  (forall t, In t ts ->
     exists col i,
       dict_get binding (reagent t) = Some col /\
       index_of col (columns df) = Some i /\
       Forall2 (fun r w => nth_error wp (label r) = Some w)
         (filter (has_key i (KNum (volume t))) (rows df)) (wells t)).
Proof.
  intros H. split; [reflexivity |].
  pose proof (group_by_sorted _ _ _ _ H) as Hs.
  split; [exact Hs |]. split.
  - intros a b t t' Hab Ha Hb.
    pose proof (StronglySorted_nth _ _ _ _ _ _ Hs Hab Ha Hb) as [Hlt | [Heq Hv]].
    + unfold priority in Hlt. split; [lia |].
      intros E. rewrite E in Hlt. lia.
    + split; [rewrite Heq; lia | intros _; exact Hv].
  - intros t Hin.
    destruct (request_in_output _ _ _ _ _ H Hin) as [col [i [D [Hi Hok]]]].
    exists col, i. repeat split; auto. apply (ok_wells _ _ _ _ _ Hok).
Qed.

(** *** Synthesized positions are pairwise distinct *)

Lemma of_nat_inj (n m : nat) : PyStr.of_nat n = PyStr.of_nat m -> n = m.
Proof.
  unfold PyStr.of_nat. intros H.
  apply (f_equal NilEmpty.uint_of_string) in H.
  rewrite !NilEmpty.usu in H. injection H as H.
  now apply DecimalNat.Unsigned.to_uint_inj.
Qed.

Lemma grid_names_not_overflow :
  forallb (fun s => negb (String.prefix "X" s))
          (map synthesized_well (seq 0 96)) = true.
Proof. vm_compute. reflexivity. Qed.

Lemma synthesized_well_inj (i j : nat) :
  synthesized_well i = synthesized_well j -> i = j.
Proof.
  assert (Hgrid : forall a b, a < 96 -> b < 96 ->
                   synthesized_well a = synthesized_well b -> a = b).
  { intros a b Ha Hb E.
    pose proof grid_names_NoDup as N. rewrite NoDup_nth_error in N.
    apply N; [now rewrite length_map, length_seq |].
    rewrite !nth_error_map, !nth_error_seq.
    apply Nat.ltb_lt in Ha, Hb. rewrite Ha, Hb. simpl. now rewrite E. }
  assert (Hmix : forall a b, a < 96 -> 96 <= b ->
                   synthesized_well a <> synthesized_well b).
  { intros a b Ha Hb E.
    pose proof grid_names_not_overflow as F. rewrite forallb_forall in F.
    specialize (F (synthesized_well a)).
    rewrite E in F at 2.
    assert (Hx : String.prefix "X" (synthesized_well b) = true).
    { unfold synthesized_well.
      change (len grid_rows * len grid_cols) with 96.
      apply Nat.ltb_ge in Hb. rewrite Hb. apply prefix_spec. eexists.
      reflexivity. }
    rewrite Hx in F. discriminate F.
    apply in_map, in_seq. lia. }
  intros E.
  destruct (le_lt_dec 96 i) as [Hi | Hi], (le_lt_dec 96 j) as [Hj | Hj].
  - unfold synthesized_well in E.
    change (len grid_rows * len grid_cols) with 96 in E.
    pose proof Hi as Hi'. pose proof Hj as Hj'.
    apply Nat.ltb_ge in Hi', Hj'. rewrite Hi', Hj' in E.
    simpl in E. injection E as E. now apply of_nat_inj.
  - symmetry in E. now apply Hmix in E.
  - now apply Hmix in E.
  - now apply Hgrid.
Qed.

Lemma relabel_In (s : nat) (rs : list Row) (r' : Row) :
  In r' (relabel s rs) <->
  exists k r, nth_error rs k = Some r /\ r' = mkRow (s + k) (cells r).
Proof.
  revert s. induction rs as [| r rs IH]; intros s; simpl.
  - split; [intros [] | intros [[| k] [r [H _]]]; discriminate].
  - rewrite IH. split.
    + intros [<- | [k [r0 [Hk ->]]]].
      * exists 0, r. now rewrite Nat.add_0_r.
      * exists (S k), r0. split; [exact Hk | f_equal; lia].
    + intros [[| k] [r0 [Hk ->]]]; simpl in Hk.
      * injection Hk as ->. left. now rewrite Nat.add_0_r.
      * right. exists k, r0. split; [exact Hk | f_equal; lia].
Qed.

Lemma relabel_nth (s : nat) (rs : list Row) (k : nat) :
  nth_error (relabel s rs) k
  = option_map (fun r => mkRow (s + k) (cells r)) (nth_error rs k).
Proof.
  revert s k. induction rs as [| r rs IH]; intros s [| k]; simpl;
    try reflexivity.
  - now rewrite Nat.add_0_r.
  - rewrite IH. destruct (nth_error rs k); simpl; [| reflexivity].
    do 2 f_equal. lia.
Qed.

Lemma groupby_drops_missing df col i groups k g r :
  index_of col (columns df) = Some i ->
  groupby df col = Ok groups ->
  In (k, g) groups -> cell_at i r = NaN -> ~ In r g.
Proof.
  intros Hi. unfold groupby. rewrite Hi. intros H. injection H as <-.
  intros Hin Hc Hr. apply in_map_iff in Hin.
  destruct Hin as [k' [E _]]. injection E as -> <-.
  apply filter_In in Hr. destruct Hr as [_ Hr].
  unfold has_key in Hr. rewrite Hc in Hr. now destruct k.
Qed.

Lemma get_well_positions_explicit (df : DataFrame) (col : string) :
  find is_position_col (columns df) = Some col ->
  exists i,
    index_of col (columns df) = Some i /\
    nth_error (columns df) i = Some col /\
    get_well_positions df = map (cell_at i) (rows df).
Proof.
  intros F.
  destruct (index_of_found col (columns df)) as [i [Hi Hn]].
  { apply find_some in F. tauto. }
  exists i. split; [exact Hi |]. split; [exact Hn |].
  unfold get_well_positions. rewrite find_filter_hd in F.
  destruct (filter is_position_col (columns df)) as [| c l]; [discriminate |].
  injection F as ->. now rewrite Hi.
Qed.

Lemma get_well_positions_length (df : DataFrame) :
  len (get_well_positions df) = len (rows df).
Proof.
  destruct (find is_position_col (columns df)) as [col |] eqn:F.
  - destruct (get_well_positions_explicit df col F) as [i [_ [_ Hwp]]].
    now rewrite Hwp, length_map.
  - rewrite get_well_positions_synthesized.
    + now rewrite length_map, length_seq.
    + rewrite find_filter_hd in F.
      now destruct (filter is_position_col (columns df)).
Qed.

(** *** Missing and non-positive volumes are the same to the grouper *)

Lemma positive_compat (a b : Q) : (a == b)%Q -> positive a = positive b.
Proof. intros E. unfold positive. now rewrite E. Qed.

Lemma filter_positive_insert_neg (q : Q) (ks : list Q) :
  positive q = false ->
  filter positive (insert_key q ks) = filter positive ks.
Proof.
  intros Hq. induction ks as [| k ks IH]; cbn [insert_key filter].
  - now rewrite Hq.
  - destruct (q ?= k)%Q eqn:E; cbn [filter].
    + reflexivity.
    + now rewrite Hq.
    + now rewrite IH.
Qed.

Lemma filter_positive_insert_pos (q : Q) (ks : list Q) :
  positive q = true ->
  filter positive (insert_key q ks) = insert_key q (filter positive ks).
Proof.
  intros Hq. induction ks as [| k ks IH]; cbn [insert_key filter].
  - now rewrite Hq.
  - destruct (q ?= k)%Q eqn:E; cbn [filter].
    + assert (Hk : positive k = true).
      { rewrite <- Hq. symmetry. apply positive_compat. now apply Qeq_alt. }
      rewrite Hk. cbn [insert_key]. now rewrite E.
    + assert (Hk : positive k = true).
      { apply positive_spec. apply positive_spec in Hq.
        apply Qlt_alt in E. eapply Qlt_trans; eassumption. }
      rewrite Hq, Hk. cbn [insert_key]. now rewrite E.
    + destruct (positive k); cbn [insert_key]; [now rewrite E, IH | exact IH].
Qed.

Lemma inert_not_positive (c : cell) (q : Q) :
  inert c -> c = Num q -> positive q = false.
Proof.
  intros [-> | [q' [-> Hq']]] E; [discriminate |].
  injection E as ->. unfold positive.
  apply Qle_bool_iff in Hq'. now rewrite Hq'.
Qed.

Lemma positive_keys_inert (c : cell) (cs : list cell) :
  inert c ->
  filter positive (numeric_keys (c :: cs)) = filter positive (numeric_keys cs).
Proof.
  intros Hc. destruct c as [q | | s]; simpl; try reflexivity.
  apply filter_positive_insert_neg. now apply (inert_not_positive (Num q)).
Qed.

Lemma positive_keys_alike (cs cs' : list cell) :
  Forall2 alike cs cs' ->
  filter positive (numeric_keys cs) = filter positive (numeric_keys cs').
Proof.
  induction 1 as [| c c' cs cs' Hc _ IH]; [reflexivity |].
  destruct Hc as [<- | [Hc Hc']].
  - destruct c as [q | | s]; simpl; try exact IH.
    destruct (positive q) eqn:Hq.
    + now rewrite !filter_positive_insert_pos, IH.
    + now rewrite !filter_positive_insert_neg, IH.
  - now rewrite !positive_keys_inert.
Qed.

Lemma text_keys_alike (cs cs' : list cell) :
  Forall2 alike cs cs' -> text_keys cs = text_keys cs'.
Proof.
  induction 1 as [| c c' cs cs' Hc _ IH]; [reflexivity |].
  destruct Hc as [<- | [Hc Hc']].
  - destruct c; simpl; now rewrite IH.
  - destruct Hc as [-> | [q [-> _]]], Hc' as [-> | [q' [-> _]]]; simpl;
      exact IH.
Qed.

Lemma has_key_alike (p : nat) (k : Q) (r r' : Row) :
  positive k = true -> alike (cell_at p r) (cell_at p r') ->
  has_key p (KNum k) r = has_key p (KNum k) r'.
Proof.
  intros Hk [E | [Hc Hc']]; unfold has_key; [now rewrite E |].
  assert (Hno : forall c, inert c ->
                  match c with Num q' => Qeq_bool q' k | _ => false end
                  = false).
  { intros c [-> | [q [-> Hq]]]; [reflexivity |].
    destruct (Qeq_bool q k) eqn:E; [| reflexivity].
    apply Qeq_bool_iff in E. apply positive_spec in Hk.
    rewrite <- E in Hk. exfalso. now apply (Qlt_not_le _ _ Hk). }
  rewrite (Hno _ Hc), (Hno _ Hc'). reflexivity.
Qed.

Lemma group_labels_alike (p : nat) (k : Q) (rs rs' : list Row) :
  positive k = true -> Forall2 row_alike rs rs' ->
  map label (filter (has_key p (KNum k)) rs)
  = map label (filter (has_key p (KNum k)) rs').
Proof.
  intros Hk. induction 1 as [| r r' rs rs' [Hl Hc] _ IH]; [reflexivity |].
  cbn [filter]. rewrite (has_key_alike p k r r' Hk (Hc p)).
  destruct (has_key p (KNum k) r'); cbn [map]; now rewrite ?Hl, IH.
Qed.

Lemma rmap_map {A B C} (f : B -> result C) (g : A -> B) (l : list A) :
  rmap (fun a => f (g a)) l = rmap f (map g l).
Proof.
  induction l as [| a l IH]; simpl; [reflexivity | now rewrite IH].
Qed.

Lemma volume_loop_positive_keys df wp rg tube p (ks : list Q)
    (rest : list gkey) acc :
  volume_loop rg tube wp (groups_of df p (map KNum ks ++ rest)) acc
  = volume_loop rg tube wp
      (groups_of df p (map KNum (filter positive ks) ++ rest)) acc.
Proof.
  revert acc. induction ks as [| v ks IH]; intros acc; [reflexivity |].
  cbn [map app filter groups_of]. unfold positive at 1.
  fold (groups_of df p (map KNum ks ++ rest)).
  destruct (Qle_bool v 0) eqn:Hv; cbn [negb].
  - cbn [volume_loop]. rewrite Hv. apply IH.
  - cbn [map app groups_of volume_loop].
    fold (groups_of df p (map KNum (filter positive ks) ++ rest)).
    cbn [volume_loop]. rewrite Hv.
    destruct (rmap _ (filter (has_key p (KNum v)) (rows df))); simpl;
      [apply IH | reflexivity].
Qed.

Lemma volume_loop_alike df df' wp rg tube p (ks : list Q) (ss : list string)
    acc :
  Forall2 row_alike (rows df) (rows df') ->
  (forall k, In k ks -> positive k = true) ->
  volume_loop rg tube wp (groups_of df p (map KNum ks ++ map KStr ss)) acc
  = volume_loop rg tube wp (groups_of df' p (map KNum ks ++ map KStr ss)) acc.
Proof.
  intros Hrows. revert acc. induction ks as [| v ks IH]; intros acc Hpos.
  - destruct ss; reflexivity.
  - cbn [map app groups_of volume_loop].
    fold (groups_of df p (map KNum ks ++ map KStr ss)).
    fold (groups_of df' p (map KNum ks ++ map KStr ss)).
    cbn [volume_loop].
    destruct (Qle_bool v 0); [apply IH; intros k Hk; apply Hpos; now right |].
    rewrite (rmap_map (well_at wp) label),
            (rmap_map (well_at wp) label (filter _ (rows df'))).
    rewrite (group_labels_alike p v _ _ (Hpos v (or_introl eq_refl)) Hrows).
    destruct (rmap (well_at wp) _); simpl; [| reflexivity].
    apply IH. intros k Hk. apply Hpos. now right.
Qed.

Lemma cells_alike (p : nat) (rs rs' : list Row) :
  Forall2 row_alike rs rs' ->
  Forall2 alike (map (cell_at p) rs) (map (cell_at p) rs').
Proof.
  induction 1 as [| r r' rs rs' [_ Hc] _ IH]; simpl; constructor; auto.
Qed.

Lemma in_filter_positive (ks : list Q) (k : Q) :
  In k (filter positive ks) -> positive k = true.
Proof. intros H. now apply filter_In in H. Qed.

Lemma reagent_loop_alike df df' binding wp order acc :
  columns df' = columns df ->
  Forall2 row_alike (rows df) (rows df') ->
  reagent_loop df binding wp order acc
  = reagent_loop df' binding wp order acc.
Proof.
  intros Hcols Hrows. revert acc.
  induction order as [| rg order IH]; intros acc; cbn [reagent_loop];
    [reflexivity |].
  destruct (dict_get binding rg) as [col |]; [| apply IH].
  unfold groupby. rewrite Hcols.
  destruct (index_of col (columns df)) as [p |]; [| reflexivity].
  cbn [rbind].
  change (map (fun k => (k, filter (has_key p k) (rows df))) ?ks)
    with (groups_of df p ks).
  change (map (fun k => (k, filter (has_key p k) (rows df'))) ?ks)
    with (groups_of df' p ks).
  rewrite (volume_loop_positive_keys df), (volume_loop_positive_keys df').
  rewrite <- (positive_keys_alike _ _ (cells_alike p _ _ Hrows)).
  rewrite <- (text_keys_alike _ _ (cells_alike p _ _ Hrows)).
  rewrite (volume_loop_alike df df' wp rg (tube_position rg) p _ _ acc Hrows
             (in_filter_positive _)).
  destruct (volume_loop rg (tube_position rg) wp _ acc); simpl;
    [apply IH | reflexivity].
Qed.

(** The grouper does not tell a missing volume from a volume at most 0. *)
Lemma group_by_alike df df' binding wp :
  columns df' = columns df ->
  Forall2 row_alike (rows df) (rows df') ->
  group_by_reagent_and_volume df binding wp
  = group_by_reagent_and_volume df' binding wp.
Proof. intros Hc Hr. now apply reagent_loop_alike. Qed.

Lemma alike_refl (c : cell) : alike c c.
Proof. now left. Qed.

Lemma relabel_alike (s : nat) (rs rs' : list Row) :
  Forall2 (fun r r' => forall p, alike (cell_at p r) (cell_at p r')) rs rs' ->
  Forall2 row_alike (relabel s rs) (relabel s rs').
Proof.
  intros H. revert s. induction H as [| r r' rs rs' Hc _ IH]; intros s; simpl;
    constructor; auto.
  split; [reflexivity | exact Hc].
Qed.

Lemma Forall2_same {A} (R : A -> A -> Prop) (l : list A) :
  (forall x, R x x) -> Forall2 R l l.
Proof. intros H. induction l; constructor; auto. Qed.

Lemma replaced_row_alike (rs : list Row) (j i : nat) (r r' : Row) (q : Q) :
  nth_error rs j = Some r ->
  cell_at i r = NaN ->
  (forall p, p <> i -> cell_at p r' = cell_at p r) ->
  cell_at i r' = Num q -> (q <= 0)%Q ->
  Forall2 (fun a b => forall p, alike (cell_at p a) (cell_at p b))
    rs (firstn j rs ++ r' :: skipn (S j) rs).
Proof.
  intros Hj Hc Hsame Hq Hq0.
  rewrite <- (firstn_skipn_middle j rs Hj) at 1.
  apply Forall2_app; [apply Forall2_same; intros; apply alike_refl |].
  constructor; [| apply Forall2_same; intros; apply alike_refl].
  intros p. destruct (Nat.eq_dec p i) as [-> | Hne].
  - right. rewrite Hc, Hq. split; [now left | right; now exists q].
  - left. symmetry. now apply Hsame.
Qed.

(** C10. In every segment, with or without a position column, a row whose
    value in the column bound to a reagent is missing keeps its own slot of
    the position enumeration (there are as many positions as rows, and row
    [j] has the [j]-th one: the [j]-th synthesized label without a position
    column, its own cell of that column with one); it is in no group of
    [groupby] on the bound column; the wells of every request of that
    reagent are read at the index labels of the rows of its group, and [j]
    is not among them; when the positions of the segment are pairwise
    distinct, as the synthesized ones always are, its position is a
    destination of no request of that reagent; and the grouper returns the
    very same requests when the missing value is replaced by any number
    at most 0. *)
Theorem missing_volume_excluded (seg : DataFrame) (binding : dict string)
    (ts : list Transfer) (rg : Liquid) (col : string) (i j : nat) (r : Row) :
  group_by_reagent_and_volume (reset_index seg) binding
    (get_well_positions seg) = Ok ts ->
  dict_get binding rg = Some col ->
  index_of col (columns seg) = Some i ->
  nth_error (rows seg) j = Some r ->
  cell_at i r = NaN ->
  len (get_well_positions seg) = len (rows seg) /\
  (exists w, nth_error (get_well_positions seg) j = Some w) /\
  (filter is_position_col (columns seg) = [] ->
   nth_error (get_well_positions seg) j = Some (Str (synthesized_well j))) /\
  (forall c p,
     find is_position_col (columns seg) = Some c ->
     index_of c (columns seg) = Some p ->
     nth_error (get_well_positions seg) j = Some (cell_at p r)) /\
  nth_error (rows (reset_index seg)) j = Some (mkRow j (cells r)) /\
  (forall groups k g,
     groupby (reset_index seg) col = Ok groups -> In (k, g) groups ->
     ~ In (mkRow j (cells r)) g /\
     forall r', In r' g -> label r' <> j) /\
  (forall t, In t ts -> reagent t = rg ->
     Forall2 (fun r' w =>
                nth_error (get_well_positions seg) (label r') = Some w)
       (contributing (reset_index seg) i (volume t)) (wells t) /\
     ~ In (mkRow j (cells r)) (contributing (reset_index seg) i (volume t)) /\
     forall r', In r' (contributing (reset_index seg) i (volume t)) ->
                label r' <> j) /\
  (NoDup (get_well_positions seg) ->
   forall t w, In t ts -> reagent t = rg ->
               nth_error (get_well_positions seg) j = Some w ->
               ~ In w (wells t)) /\
  (filter is_position_col (columns seg) = [] ->
   forall t, In t ts -> reagent t = rg ->
             ~ In (Str (synthesized_well j)) (wells t)) /\
  (forall seg' r' q,
     columns seg' = columns seg ->
     rows seg' = firstn j (rows seg) ++ r' :: skipn (S j) (rows seg) ->
     (forall p, p <> i -> cell_at p r' = cell_at p r) ->
     cell_at i r' = Num q -> (q <= 0)%Q ->
     group_by_reagent_and_volume (reset_index seg') binding
       (get_well_positions seg) = Ok ts).
Proof.
  intros H D Hi Hj Hc.
  assert (Hlen : len (get_well_positions seg) = len (rows seg))
    by apply get_well_positions_length.
  assert (Hlt : j < len (rows seg)) by (apply nth_error_Some; congruence).
  assert (Hsynth : filter is_position_col (columns seg) = [] ->
            forall k, k < len (rows seg) ->
              nth_error (get_well_positions seg) k
              = Some (Str (synthesized_well k))).
  { intros Hpos k Hk. rewrite (get_well_positions_synthesized seg Hpos).
    rewrite nth_error_map, nth_error_seq.
    apply Nat.ltb_lt in Hk. now rewrite Hk. }
  assert (Hmember : forall r', In r' (rows (reset_index seg)) ->
            label r' = j -> cell_at i r' = NaN).
  { intros r' Hr' El. simpl in Hr'. apply relabel_In in Hr'.
    destruct Hr' as [k [r0 [Hk ->]]]. simpl in El. subst k.
    rewrite Hj in Hk. injection Hk as <-. exact Hc. }
  assert (Hgroup : forall v r', In r' (contributing (reset_index seg) i v) ->
            label r' <> j).
  { intros v r' Hr' El. apply contributing_spec in Hr'.
    destruct Hr' as [Hr' [q [Hq _]]].
    rewrite (Hmember r' Hr' El) in Hq. discriminate. }
  assert (Hreq : forall t, In t ts -> reagent t = rg ->
            request_ok (reset_index seg) (get_well_positions seg) rg i t).
  { intros t Hin Hrg.
    destruct (request_in_output _ _ _ _ _ H Hin) as [col' [i' [D' [Hi' Hok]]]].
    rewrite Hrg in D', Hok. assert (col' = col) by congruence. subst col'.
    simpl in Hi'. assert (i' = i) by congruence. now subst i'. }
  assert (Hlabel : NoDup (get_well_positions seg) ->
            forall t w, In t ts -> reagent t = rg ->
              nth_error (get_well_positions seg) j = Some w ->
              ~ In w (wells t)).
  { intros Hnd t w Hin Hrg Hw Hwt.
    destruct (Forall2_In_right _ _ _ _
                (ok_wells _ _ _ _ _ (Hreq t Hin Hrg)) Hwt) as [r' [Hr' Hn]].
    apply (Hgroup _ _ Hr').
    rewrite NoDup_nth_error in Hnd. apply Hnd; [| congruence].
    apply nth_error_Some. congruence. }
  split; [exact Hlen |].
  split.
  { destruct (nth_error (get_well_positions seg) j) as [w |] eqn:E;
      [now exists w |].
    apply nth_error_None in E. lia. }
  split; [intros Hpos; now apply Hsynth |].
  split.
  { intros c p F Hp.
    destruct (get_well_positions_explicit seg c F) as [p' [Hp' [_ Hwp]]].
    assert (p' = p) by congruence. subst p'.
    now rewrite Hwp, nth_error_map, Hj. }
  split; [simpl; now rewrite relabel_nth, Hj |].
  split.
  { intros groups k g Hg Hin.
    assert (Hno : forall r', In r' g -> label r' <> j).
    { intros r' Hr' El. revert Hg. unfold groupby.
      replace (columns (reset_index seg)) with (columns seg) by reflexivity.
      rewrite Hi. intros Hg. injection Hg as <-.
      apply in_map_iff in Hin. destruct Hin as [k' [E _]].
      injection E as -> <-. apply filter_In in Hr'.
      destruct Hr' as [Hr' Hk]. unfold has_key in Hk.
      rewrite (Hmember r' Hr' El) in Hk. now destruct k. }
    split; [| exact Hno].
    intros Hr. now apply (Hno _ Hr). }
  split.
  { intros t Hin Hrg.
    split; [apply (ok_wells _ _ _ _ _ (Hreq t Hin Hrg)) |].
    split; [| apply Hgroup].
    intros Hr. now apply (Hgroup _ _ Hr). }
  split; [exact Hlabel |].
  split.
  { intros Hpos t Hin Hrg. apply (Hlabel); auto.
    rewrite (get_well_positions_synthesized seg Hpos).
    apply NoDup_map_NoDup_ForallPairs; [| apply seq_NoDup].
    intros a b _ _ E. injection E as E. now apply synthesized_well_inj. }
  intros seg' r' q Hcols Hrows Hsame Hq Hq0.
  rewrite <- H. symmetry. apply group_by_alike; [exact Hcols |].
  simpl. rewrite Hrows. apply relabel_alike.
  now apply (replaced_row_alike (rows seg) j i r r' q).
Qed.

(** ** Orchestration: the empty outcome *)

Lemma segment_data_empty (df : DataFrame) :
  rows df = [] -> segment_data df max_wells_default = ([], Ok []).
Proof. intros H. unfold segment_data. rewrite H. reflexivity. Qed.

Lemma generate_full_protocol_empty (w : World) (df dff : DataFrame)
    (out : list event) :
  csv_table w = Some df ->
  filter_valid_wells df = (out, Ok dff) ->
  rows dff = [] ->
  generate_full_protocol w
  = (MsgProcessing :: MsgLoaded (len (rows df)) (columns df)
       :: out ++ [MsgIdentified (classify (columns dff) patterns)],
     Ok (Some [])).
Proof.
  intros Ht Hf Hr. unfold generate_full_protocol, read_csv_data.
  rewrite Ht. unfold bind, emit, ret. cbv beta iota. rewrite Hf.
  cbv beta iota. unfold identify_columns, bind, emit, ret. cbv beta iota.
  rewrite (segment_data_empty dff Hr). simpl.
  rewrite ?app_nil_r. reflexivity.
Qed.

Lemma main_falsy (w : World) (tr : list event) (gf : option (list path)) :
  csv_exists w = true ->
  generate_full_protocol w = (tr, Ok gf) ->
  truthy gf = false ->
  main w = ((MsgBanner :: tr) ++ [MsgFailed], Ok tt).
Proof.
  intros He Hg Hf. unfold main, bind, emit.
  rewrite He, Hg. simpl negb. cbv beta iota. rewrite Hf. reflexivity.
Qed.

Lemma generate_full_protocol_unreadable (w : World) :
  csv_table w = None ->
  generate_full_protocol w = ([MsgProcessing; MsgReadError], Ok None).
Proof.
  intros Ht. unfold generate_full_protocol, read_csv_data.
  now rewrite Ht.
Qed.

(** C7, as stated, fails: with every row dropped by the validator,
    [generate_full_protocol] returns the empty list and [main] prints the
    same failure message as for an unreadable table. *)
Lemma main_reports_empty_as_failure :
  outcome (generate_full_protocol world_all_dropped) = Ok (Some []) /\
  outcome (generate_full_protocol world_unreadable) = Ok None /\
  List.last (trace (main world_all_dropped)) MsgBanner = MsgFailed /\
  List.last (trace (main world_unreadable)) MsgBanner = MsgFailed /\
  ~ empty_outcome_distinguished world_all_dropped world_unreadable.
Proof.
  repeat split; try reflexivity.
  intros [H _]. apply H. vm_compute. intuition.
Qed.

(** C7, amended. When the validated row set is empty, [segment_data] gives
    zero segments, no program is written, and [generate_full_protocol]
    returns the empty list without raising, which differs from the [None]
    it returns for an unreadable table; [main] does not tell the two
    outcomes apart: in both cases its last message is the failure
    message. *)
Theorem empty_input_no_programs (w : World) (df dff : DataFrame)
    (out : list event) :
  csv_exists w = true ->
  csv_table w = Some df ->
  filter_valid_wells df = (out, Ok dff) ->
  rows dff = [] ->
  outcome (segment_data dff max_wells_default) = Ok [] /\
  outcome (generate_full_protocol w) = Ok (Some []) /\
  written (trace (generate_full_protocol w)) = [] /\
  (forall w', csv_table w' = None ->
     outcome (generate_full_protocol w') = Ok None /\
     outcome (generate_full_protocol w') <> outcome (generate_full_protocol w) /\
     (csv_exists w' = true ->
      outcome (main w') = Ok tt /\
      List.last (trace (main w')) MsgBanner = MsgFailed)) /\
  outcome (main w) = Ok tt /\
  List.last (trace (main w)) MsgBanner = MsgFailed.
Proof.
  intros He Ht Hf Hr.
  pose proof (generate_full_protocol_empty w df dff out Ht Hf Hr) as Hg.
  assert (Hout : written out = []).
  { unfold filter_valid_wells in Hf.
    destruct (filter is_water_col (columns df)).
    - injection Hf as <- _. reflexivity.
    - unfold bind, lift in Hf.
      destruct (rbind _ _); simpl in Hf; injection Hf as <- _; reflexivity. }
  split; [now rewrite segment_data_empty |].
  split; [now rewrite Hg |].
  split.
  { rewrite Hg. simpl.
    assert (Happ : forall a b, written (a ++ b) = written a ++ written b).
    { induction a as [| [] a IH]; intros b; simpl; rewrite ?IH; reflexivity. }
    now rewrite Happ, Hout. }
  split.
  { intros w' Ht'.
    pose proof (generate_full_protocol_unreadable w' Ht') as Hg'.
    split; [now rewrite Hg' |].
    split; [rewrite Hg, Hg'; discriminate |].
    intros He'. rewrite (main_falsy w' _ _ He' Hg' eq_refl).
    split; [reflexivity | apply last_last]. }
  rewrite (main_falsy w _ _ He Hg eq_refl).
  split; [reflexivity | apply last_last].
Qed.

(** ** Orchestration: two runs on the same table *)

Lemma written_app (a b : list event) :
  written (a ++ b) = written a ++ written b.
Proof.
  induction a as [| [] a IH]; simpl; rewrite ?IH; reflexivity.
Qed.

Lemma routed_sequences_app (a b : list event) :
  routed_sequences (a ++ b) = routed_sequences a ++ routed_sequences b.
Proof. unfold routed_sequences. now rewrite written_app, map_app. Qed.

Lemma same_plan_refl {A} (m : Py A) : same_plan m m.
Proof. now split. Qed.

Lemma same_plan_bind {A B} (m : Py A) (k1 k2 : A -> Py B) :
  (forall a, same_plan (k1 a) (k2 a)) ->
  same_plan (bind m k1) (bind m k2).
Proof.
  intros H. destruct m as [out [a | e]]; simpl; [| apply same_plan_refl].
  destruct (H a) as [Ho Ht].
  destruct (k1 a) as [o1 r1], (k2 a) as [o2 r2].
  unfold same_plan, outcome, trace in *; simpl in *.
  split; [exact Ho |]. now rewrite !routed_sequences_app, Ht.
Qed.

Lemma files_loop_same_plan (w1 w2 : World) binding total segments idx acc :
  (forall p, write_ok w1 p = write_ok w2 p) ->
  same_plan (files_loop w1 binding total segments idx acc)
            (files_loop w2 binding total segments idx acc).
Proof.
  intros Hw. revert idx acc.
  induction segments as [| seg segments IH]; intros idx acc;
    cbn [files_loop]; [apply same_plan_refl |].
  apply same_plan_bind. intros _.
  apply same_plan_bind. intros body.
  rewrite Hw.
  destruct (write_ok w2 _).
  - unfold same_plan, bind, emit, ret, outcome, trace; simpl.
    destruct (IH (S idx) (acc ++ [if 1 <? total then SegmentFile (idx + 1)
                                  else OutputFile])) as [Ho Ht].
    destruct (files_loop w1 _ _ _ _ _) as [o1 r1].
    destruct (files_loop w2 _ _ _ _ _) as [o2 r2].
    unfold outcome, trace in *; simpl in *. split; [exact Ho |].
    unfold routed_sequences in *. simpl. now rewrite Ht.
  - unfold same_plan, bind, emit, ret, outcome, trace; simpl.
    destruct (IH (S idx) acc) as [Ho Ht].
    destruct (files_loop w1 _ _ _ _ _) as [o1 r1].
    destruct (files_loop w2 _ _ _ _ _) as [o2 r2].
    unfold outcome, trace in *; simpl in *. now split.
Qed.

(** C9. Two runs of [generate_full_protocol] on the same table (same
    column names in the same order, same rows), in environments that may
    differ in their clocks, end the same way and write programs with the
    same routed request sequences, file by file and in the same order. *)
Theorem generate_full_protocol_deterministic (w1 w2 : World) :
  csv_table w1 = csv_table w2 ->
  (forall p, write_ok w1 p = write_ok w2 p) ->
  outcome (generate_full_protocol w1) = outcome (generate_full_protocol w2) /\
  routed_sequences (trace (generate_full_protocol w1))
  = routed_sequences (trace (generate_full_protocol w2)).
Proof.
  intros Ht Hw. change (same_plan (generate_full_protocol w1)
                                  (generate_full_protocol w2)).
  unfold generate_full_protocol, read_csv_data. rewrite Ht.
  apply same_plan_bind. intros _.
  apply same_plan_bind. intros [df |]; [| apply same_plan_refl].
  apply same_plan_bind. intros dff.
  apply same_plan_bind. intros binding.
  apply same_plan_bind. intros segments.
  destruct (files_loop_same_plan w1 w2 binding (len segments) segments 0 []
              Hw) as [Ho Htr].
  destruct (files_loop w1 _ _ _ _ _) as [o1 r1].
  destruct (files_loop w2 _ _ _ _ _) as [o2 r2].
  unfold same_plan, outcome, trace, bind, ret in *; simpl in *.
  subst r2. destruct r1; simpl; rewrite ?app_nil_r; now split.
Qed.

(** *** When the grouper returns *)

Lemma rmap_total {A B} (f : A -> result B) (l : list A) :
  (forall x, In x l -> exists y, f x = Ok y) -> exists ys, rmap f l = Ok ys.
Proof.
  induction l as [| a l IH]; simpl; intros H; [now exists [] |].
  destruct (H a (or_introl eq_refl)) as [b Hb]. rewrite Hb. simpl.
  destruct IH as [bs Hbs]; [intros x Hx; apply H; now right |].
  rewrite Hbs. simpl. now eexists.
Qed.

Lemma text_keys_numeric (cs : list cell) :
  (forall c, In c cs -> numeric c) -> text_keys cs = [].
Proof.
  induction cs as [| c cs IH]; simpl; intros H; [reflexivity |].
  pose proof (H c (or_introl eq_refl)) as Hc.
  destruct c; simpl in Hc; try contradiction; apply IH; intros c' Hc';
    apply H; now right.
Qed.

Lemma volume_loop_total df wp rg tube i (vs : list Q) acc :
  (forall r, In r (rows df) -> label r < len wp) ->
  exists ts, volume_loop rg tube wp (groups_of df i (map KNum vs)) acc = Ok ts.
Proof.
  intros Hl. revert acc. induction vs as [| v vs IH]; intros acc; simpl.
  - now eexists.
  - destruct (Qle_bool v 0); [apply IH |].
    destruct (rmap_total (fun r => well_at wp (label r))
                (filter (has_key i (KNum v)) (rows df))) as [ws Hws].
    { intros r Hr. apply filter_In in Hr. destruct Hr as [Hr _].
      unfold well_at. destruct (nth_error wp (label r)) eqn:E; [now eexists |].
      apply nth_error_None in E. specialize (Hl r Hr). lia. }
    rewrite Hws. simpl. apply IH.
Qed.

(** The grouper returns whenever each bound column is a column of the
    frame that holds no text, and each index label is a position of
    [well_positions]. *)
Lemma group_by_total (df : DataFrame) (binding : dict string)
    (wp : list cell) :
  (forall rg col, dict_get binding rg = Some col ->
     exists i, index_of col (columns df) = Some i /\
               forall r, In r (rows df) -> numeric (cell_at i r)) ->
  (forall r, In r (rows df) -> label r < len wp) ->
  exists ts, group_by_reagent_and_volume df binding wp = Ok ts.
Proof.
  intros Hb Hl. unfold group_by_reagent_and_volume.
  generalize (@nil Transfer) as acc.
  induction reagent_order as [| rg order IH]; intros acc; simpl;
    [now eexists |].
  destruct (dict_get binding rg) as [col |] eqn:D; [| apply IH].
  destruct (Hb rg col D) as [i [Hi Hnum]].
  unfold groupby. rewrite Hi. simpl.
  rewrite text_keys_numeric.
  - simpl. rewrite app_nil_r.
    destruct (volume_loop_total df wp rg (tube_position rg) i
                (numeric_keys (map (cell_at i) (rows df))) acc Hl)
      as [ts Hts].
    unfold groups_of in Hts. rewrite Hts. simpl. apply IH.
  - intros c Hc. apply in_map_iff in Hc. destruct Hc as [r [<- Hr]].
    now apply Hnum.
Qed.

(** * Worked instances *)

Example example_grouping :
  group_by_reagent_and_volume (reset_index example_segment) example_binding
    (get_well_positions example_segment) = Ok example_transfers.
Proof. reflexivity. Qed.

Example example_steps :
  option_map (map (fun s => (step_num s, pipette_type s, step_volume s)))
    (match generate_protocol_steps_for_segment example_segment example_binding
     with Ok l => Some l | Raise _ => None end)
  = Some [ (1, "p300_single_gen2", 25%Q); (2, "p20_single_gen2", 5%Q);
           (3, "p20_single_gen2", 10%Q); (4, "p300_single_gen2", 65%Q);
           (5, "p300_single_gen2", 70%Q); (6, "p300_single_gen2", 80%Q);
           (7, "p300_single_gen2", 90%Q) ].
Proof. reflexivity. Qed.

(** The token [5m] of the salt also occurs in [0.5m]: the first matching
    column wins. *)
Example example_first_match :
  classify ["Tris_0.5M"; "NaCl_5M"] patterns
  = [(nacl, "Tris_0.5M"); (tris, "Tris_0.5M")].
Proof. reflexivity. Qed.

Lemma get_well_positions_row_major_witness :
  filter is_position_col (columns example_segment) = [] /\
  get_well_positions example_segment = [Str "A1"; Str "A2"; Str "A3"; Str "A4"] /\
  NoDup (get_well_positions example_segment).
Proof.
  split; [reflexivity |]. split; [reflexivity |].
  destruct (get_well_positions_row_major example_segment eq_refl)
    as [_ [_ [_ [_ [H _]]]]].
  apply H. simpl. lia.
Defined.

Lemma group_by_requests_uniform_witness :
  group_by_reagent_and_volume (reset_index example_segment) example_binding
    (get_well_positions example_segment) = Ok example_transfers /\
  forall w,
    (exists t, In t example_transfers /\ reagent t = glycine /\ In w (wells t))
    <->
    (exists r q,
       In r (rows (reset_index example_segment)) /\
       cell_at 0 r = Num q /\ (0 < q)%Q /\
       nth_error (get_well_positions example_segment) (label r) = Some w).
Proof.
  split; [reflexivity |].
  exact (proj2 (group_by_requests_uniform (reset_index example_segment)
                  example_binding (get_well_positions example_segment)
                  example_transfers eq_refl)
           glycine "Gly_2.4M" 0 eq_refl eq_refl).
Defined.

Lemma group_by_canonical_order_witness :
  StronglySorted before example_transfers.
Proof.
  exact (proj1 (proj2 (group_by_canonical_order (reset_index example_segment)
                         example_binding (get_well_positions example_segment)
                         example_transfers eq_refl))).
Defined.

Lemma identify_columns_first_match_witness :
  exists binding,
    outcome (identify_columns example_segment) = Ok binding /\
    dict_get binding nacl = Some "NaCl_5M".
Proof.
  destruct (identify_columns_first_match example_segment nacl
              ["nacl"; "5m"; "salt"] (or_intror (or_introl eq_refl)))
    as [binding [H1 [H2 _]]].
  exists binding. split; [exact H1 | rewrite H2; reflexivity].
Defined.

Lemma missing_volume_excluded_witness :
  (nth_error (get_well_positions example_segment) 3 = Some (Str "A4") /\
   forall t, In t example_transfers -> reagent t = glycine ->
             ~ In (Str "A4") (wells t)) /\
  (get_well_positions example_segment_wells = [Str "C5"; Str "C6"; Str "C7"] /\
   group_by_reagent_and_volume (reset_index example_segment_wells)
     [(glycine, "Gly_2.4M")] (get_well_positions example_segment_wells)
   = Ok [mkTransfer glycine 5 "A1" [Str "C5"; Str "C7"] 2] /\
   group_by_reagent_and_volume (reset_index example_segment_wells_zero)
     [(glycine, "Gly_2.4M")] (get_well_positions example_segment_wells)
   = Ok [mkTransfer glycine 5 "A1" [Str "C5"; Str "C7"] 2]).
Proof.
  split.
  - destruct (missing_volume_excluded example_segment example_binding
                example_transfers glycine "Gly_2.4M" 0 3
                (mkRow 32 [NaN; Num 25; Num 80])
                eq_refl eq_refl eq_refl eq_refl eq_refl)
      as [_ [_ [Hslot [_ [_ [_ [_ [_ [Hreq _]]]]]]]]].
    split; [exact (Hslot eq_refl) | exact (Hreq eq_refl)].
  - split; [reflexivity |]. split; [reflexivity |].
    destruct (missing_volume_excluded example_segment_wells
                [(glycine, "Gly_2.4M")]
                [mkTransfer glycine 5 "A1" [Str "C5"; Str "C7"] 2]
                glycine "Gly_2.4M" 1 1 (mkRow 5 [Str "C6"; NaN])
                eq_refl eq_refl eq_refl eq_refl eq_refl)
      as [_ [_ [_ [_ [_ [_ [_ [_ [_ Hzero]]]]]]]]].
    apply (Hzero example_segment_wells_zero (mkRow 5 [Str "C6"; Num 0]) 0%Q);
      try reflexivity.
    + intros [| [| p]] Hp; try reflexivity. contradiction.
    + discriminate.
Defined.

Lemma empty_input_no_programs_witness :
  outcome (generate_full_protocol world_all_dropped) = Ok (Some []) /\
  List.last (trace (main world_all_dropped)) MsgBanner = MsgFailed.
Proof.
  destruct (empty_input_no_programs world_all_dropped
              (mkDF ["V_gly"; "V_water"]
                    [ mkRow 0 [Num 5; Num 0]; mkRow 1 [Num 10; Num (-3)] ])
              (mkDF ["V_gly"; "V_water"] [])
              [MsgFiltered 2; MsgRemaining 0]
              eq_refl eq_refl eq_refl eq_refl)
    as [_ [H1 [_ [_ [_ H2]]]]].
  split; [exact H1 | exact H2].
Defined.

Example example_runs_differ_in_header :
  written (trace (generate_full_protocol world_morning))
  <> written (trace (generate_full_protocol world_later)).
Proof. vm_compute. intros H. discriminate H. Qed.

Lemma generate_full_protocol_deterministic_witness :
  routed_sequences (trace (generate_full_protocol world_morning))
  = routed_sequences (trace (generate_full_protocol world_later)).
Proof.
  exact (proj2 (generate_full_protocol_deterministic world_morning world_later
                  eq_refl (fun _ => eq_refl))).
Defined.

(** The table of 30 rows end to end: 29 rows are kept, two programs are
    written, of 28 rows and 1 row; the first has two glycine requests, of
    volumes 5 and 10 on the p20 pipette, and then one water request. *)
Example example_end_to_end :
  outcome (generate_full_protocol world_thirty)
  = Ok (Some [SegmentFile 1; SegmentFile 2]) /\
  map (fun pc => (wells_in_segment (header (snd pc)),
                  map (fun st => (pipette_type st, step_volume st,
                                  len (step_dest st)))
                      (steps (snd pc))))
      (written (trace (generate_full_protocol world_thirty)))
  = [ (28, [ ("p20_single_gen2", 5%Q, 15); ("p20_single_gen2", 10%Q, 13);
             ("p300_single_gen2", 50%Q, 28) ]);
      (1, [ ("p20_single_gen2", 10%Q, 1); ("p300_single_gen2", 50%Q, 1) ]) ].
Proof. vm_compute. split; reflexivity. Qed.

(** * Further properties *)

(** ** Row Validator: what it returns and when it raises *)

Lemma mask_ok_numeric (i : nat) (rs : list Row) (mask : list bool) :
  rmap (fun c => cell_gt c 0%Q) (map (cell_at i) rs) = Ok mask ->
  forall r, In r rs -> numeric (cell_at i r).
Proof.
  revert mask. induction rs as [| r0 rs IH]; simpl; intros mask H r Hr;
    [contradiction |].
  destruct (cell_gt (cell_at i r0) 0%Q) as [b |] eqn:E0; simpl in H;
    [| discriminate].
  destruct (rmap _ (map (cell_at i) rs)) as [bs |] eqn:Ers; simpl in H;
    [| discriminate].
  destruct Hr as [<- | Hr]; [| now apply (IH bs)].
  destruct (cell_at i r0); simpl in *; [exact I | exact I | discriminate].
Qed.

Lemma mask_raises (i : nat) (rs : list Row) (e : exn) :
  rmap (fun c => cell_gt c 0%Q) (map (cell_at i) rs) = Raise e ->
  e = TypeError /\ exists r s, In r rs /\ cell_at i r = Str s.
Proof.
  induction rs as [| r0 rs IH]; simpl; intros H; [discriminate |].
  destruct (cell_at i r0) as [q | | s] eqn:E0; simpl in H.
  - destruct (rmap _ (map (cell_at i) rs)) as [bs | e'] eqn:Ers; simpl in H;
      [discriminate |].
    injection H as ->. destruct (IH eq_refl) as [-> [r [s [Hr Hs]]]].
    split; [reflexivity |]. exists r, s. auto.
  - destruct (rmap _ (map (cell_at i) rs)) as [bs | e'] eqn:Ers; simpl in H;
      [discriminate |].
    injection H as ->. destruct (IH eq_refl) as [-> [r [s [Hr Hs]]]].
    split; [reflexivity |]. exists r, s. auto.
  - injection H as <-. split; [reflexivity |]. exists r0, s. auto.
Qed.

Lemma filter_filter_same {A} (f : A -> bool) (l : list A) :
  filter f (filter f l) = filter f l.
Proof.
  induction l as [| a l IH]; simpl; [reflexivity |].
  destruct (f a) eqn:E; simpl; [rewrite E; now f_equal | exact IH].
Qed.

(** The shape of a successful call. *)
Lemma filter_valid_wells_ok (df dff : DataFrame) (out : list event) :
  filter_valid_wells df = (out, Ok dff) ->
  (find is_water_col (columns df) = None /\ dff = df /\
   out = [MsgNoWaterColumn]) \/
  (exists water_col i,
     find is_water_col (columns df) = Some water_col /\
     index_of water_col (columns df) = Some i /\
     (forall r, In r (rows df) -> numeric (cell_at i r)) /\
     dff = mkDF (columns df) (filter (positive_at i) (rows df)) /\
     out = [MsgFiltered (len (rows df) - len (rows dff));
            MsgRemaining (len (rows dff))]).
Proof.
  intros H. destruct (find is_water_col (columns df)) as [c |] eqn:F.
  - right. destruct (filter_valid_wells_column df c F) as [i [Hi [_ Hcall]]].
    rewrite Hcall in H. clear Hcall.
    destruct (rmap _ (map (cell_at i) (rows df))) as [mask | e] eqn:M;
      [| discriminate].
    pose proof (mask_ok_numeric i _ _ M) as Hnum.
    rewrite (mask_numeric i _ Hnum) in M. injection M as <-.
    unfold lift, bind, emit, ret in H; simpl in H.
    rewrite boolean_index_map in H. injection H as <- <-.
    exists c, i. repeat split; auto.
  - left. rewrite (filter_valid_wells_no_column df F) in H.
    injection H as <- <-. auto.
Qed.

(** X1. A successful [filter_valid_wells] keeps the columns, keeps a
    subsequence of the rows with their index labels, prints two counts
    that add up to the number of input rows, and leaves only rows that are
    strictly positive in the water column; run again on its own result it
    returns that result unchanged. *)
Theorem filter_valid_wells_idempotent (df dff : DataFrame) (out : list event) :
  filter_valid_wells df = (out, Ok dff) ->
  columns dff = columns df /\
  (exists keep, rows dff = filter keep (rows df)) /\
  len (rows dff) <= len (rows df) /\
  (forall n m, out = [MsgFiltered n; MsgRemaining m] ->
               n + m = len (rows df) /\ m = len (rows dff)) /\
  (forall water_col i,
     find is_water_col (columns df) = Some water_col ->
     index_of water_col (columns df) = Some i ->
     forall r, In r (rows dff) ->
               exists q, cell_at i r = Num q /\ (0 < q)%Q) /\
  outcome (filter_valid_wells dff) = Ok dff.
Proof.
  intros H. apply filter_valid_wells_ok in H.
  destruct H as [[F [-> ->]] | [c [i [F [Hi [Hnum [-> ->]]]]]]].
  - split; [reflexivity |].
    split; [exists (fun _ => true); induction (rows df); simpl; congruence |].
    split; [lia |]. split; [discriminate |].
    split; [intros c i F'; congruence |].
    now rewrite (filter_valid_wells_no_column df F).
  - cbn [columns rows].
    pose proof (filter_length_le (positive_at i) (rows df)) as Hle.
    split; [reflexivity |].
    split; [now exists (positive_at i) |].
    split; [exact Hle |].
    split; [intros n m E; injection E as <- <-; split; [lia | reflexivity] |].
    split.
    + intros c' i' F' Hi' r Hr.
      assert (c' = c) by congruence. subst c'.
      assert (i' = i) by congruence. subst i'.
      apply filter_In in Hr. now apply positive_at_spec.
    + destruct (filter_valid_wells_column
                  (mkDF (columns df) (filter (positive_at i) (rows df))) c F)
        as [i' [Hi' [_ Hcall]]].
      cbn [columns rows] in Hi', Hcall.
      assert (i' = i) by congruence. subst i'.
      rewrite Hcall, mask_numeric.
      * unfold lift, bind, emit, ret, outcome; simpl.
        now rewrite boolean_index_map, filter_filter_same.
      * intros r Hr. apply filter_In in Hr. now apply Hnum.
Qed.

(** X2. [filter_valid_wells] raises only [TypeError], before it prints
    anything, and does so exactly when a row holds a text in the first
    water-named column; the values of all other columns are never
    compared. *)
Theorem filter_valid_wells_raises (df : DataFrame) :
  (forall out e,
     filter_valid_wells df = (out, Raise e) ->
     e = TypeError /\ out = [] /\
     exists water_col i r s,
       find is_water_col (columns df) = Some water_col /\
       index_of water_col (columns df) = Some i /\
       In r (rows df) /\ cell_at i r = Str s) /\
  (forall water_col i r s,
     find is_water_col (columns df) = Some water_col ->
     index_of water_col (columns df) = Some i ->
     In r (rows df) -> cell_at i r = Str s ->
     filter_valid_wells df = ([], Raise TypeError)).
Proof.
  split.
  - intros out e H.
    destruct (find is_water_col (columns df)) as [c |] eqn:F.
    + destruct (filter_valid_wells_column df c F) as [i [Hi [_ Hcall]]].
      rewrite Hcall in H.
      destruct (rmap _ (map (cell_at i) (rows df))) as [mask | e'] eqn:M.
      * unfold lift, bind, emit, ret in H; simpl in H. discriminate.
      * unfold lift, bind in H; simpl in H. injection H as <- <-.
        destruct (mask_raises i _ _ M) as [-> [r [s [Hr Hs]]]].
        repeat split. exists c, i, r, s. auto.
    + rewrite (filter_valid_wells_no_column df F) in H. discriminate.
  - intros c i r s F Hi Hr Hs.
    destruct (filter_valid_wells_column df c F) as [i' [Hi' [_ Hcall]]].
    assert (i' = i) by congruence. subst i'.
    rewrite Hcall, (mask_text i _ r s Hr Hs). reflexivity.
Qed.

(** ** Batcher: any capacity *)

Lemma combine_map_left {A B C} (f : A -> B) (l : list A) (l' : list C) :
  combine (map f l) l' = map (fun p => (f (fst p), snd p)) (combine l l').
Proof.
  revert l'. induction l as [| a l IH]; intros [| c l']; simpl;
    try reflexivity.
  now rewrite IH.
Qed.

Lemma segment_loop_trace (df : DataFrame) (k : nat) (starts : list nat)
    (acc : list DataFrame) :
  trace (segment_loop df k starts acc)
  = map (fun p => MsgSegment (len acc + S (fst p))
                    (len (rows (iloc df (snd p) (snd p + k)))))
        (combine (seq 0 (len starts)) starts).
Proof.
  revert acc. induction starts as [| i starts IH]; intros acc;
    cbn [segment_loop]; [reflexivity |].
  rewrite trace_emit, IH. cbn [List.length combine seq map fst snd].
  rewrite length_app. cbn [List.length].
  f_equal.
  rewrite <- seq_shift, combine_map_left, map_map.
  apply map_ext. intros [j s]. cbn [fst snd]. f_equal. lia.
Qed.

Lemma combine_map_right {A B C} (g : B -> C) (l : list A) (l' : list B) :
  combine l (map g l') = map (fun p => (fst p, g (snd p))) (combine l l').
Proof.
  revert l'. induction l as [| a l IH]; intros [| b l']; simpl;
    try reflexivity.
  now rewrite IH.
Qed.

Lemma segment_data_trace (df : DataFrame) (k : nat) :
  0 < k ->
  trace (segment_data df k)
  = map (fun p => MsgSegment (S (fst p)) (len (rows (snd p))))
        (combine (seq 0 (len (slices df k))) (slices df k)).
Proof.
  intros Hk. unfold segment_data, range.
  destruct (k =? 0) eqn:E; [apply Nat.eqb_eq in E; lia |].
  unfold lift, bind, trace.
  destruct (segment_loop df k _ []) as [tr r] eqn:L. cbn [fst app].
  change tr with (trace (tr, r)). rewrite <- L, segment_loop_trace.
  rewrite range_from_closed by lia.
  unfold slices. rewrite !length_map, !length_seq, Nat.sub_0_r.
  rewrite !combine_map_right, !map_map.
  apply map_ext. intros [j s]. cbn [fst snd List.length].
  replace (0 + s * k) with (s * k) by lia.
  replace (s * k + k) with ((s + 1) * k) by lia. reflexivity.
Qed.

Lemma ceil_div_last (n k c : nat) :
  0 < k -> S c < ceil_div n k -> S c * k < n.
Proof.
  intros Hk. unfold ceil_div.
  pose proof (Nat.div_mod_eq (n + k - 1) k) as E.
  pose proof (Nat.mod_upper_bound (n + k - 1) k) as U. nia.
Qed.

(** X3. For any capacity: a capacity of 0 raises [ValueError] with
    nothing printed; a positive capacity [k] gives [ceil(n/k)] segments
    that concatenate to the input, none of them empty, each with the
    table's columns, all but the last of exactly [k] rows, and prints one
    message per segment with its number (from 1) and its size. *)
Theorem segment_data_any_capacity (df : DataFrame) (k : nat) :
  (k = 0 -> segment_data df k = ([], Raise ValueError)) /\
  (0 < k ->
   exists segments,
     outcome (segment_data df k) = Ok segments /\
     len segments = ceil_div (len (rows df)) k /\
     List.concat (map rows segments) = rows df /\
     (forall i seg,
        nth_error segments i = Some seg ->
        columns seg = columns df /\
        rows seg = firstn k (skipn (i * k) (rows df)) /\
        0 < len (rows seg) <= k /\
        (S i < len segments -> len (rows seg) = k)) /\
     trace (segment_data df k)
     = map (fun p => MsgSegment (S (fst p)) (len (rows (snd p))))
           (combine (seq 0 (len segments)) segments)).
Proof.
  split; [intros ->; reflexivity |].
  intros Hk. exists (slices df k).
  assert (Hlen : len (slices df k) = ceil_div (len (rows df)) k)
    by (unfold slices; now rewrite length_map, length_seq).
  split; [now apply segment_data_outcome |].
  split; [exact Hlen |].
  split; [now apply slices_concat |].
  split; [| now apply segment_data_trace].
  intros i seg Hi.
  destruct (slices_nonempty df k i seg Hk Hi) as [Hc Hsz].
  assert (Hlt : i < ceil_div (len (rows df)) k).
  { rewrite <- Hlen. apply nth_error_Some. congruence. }
  rewrite slices_nth in Hi by exact Hlt. injection Hi as <-.
  split; [reflexivity |]. split; [apply iloc_rows |].
  split; [exact Hsz |].
  intros Hlast. rewrite Hlen in Hlast.
  apply (ceil_div_last _ _ _ Hk) in Hlast.
  rewrite iloc_rows, length_firstn, length_skipn. lia.
Qed.

(** ** Well Assigner: explicit columns and overflow *)

(** X4. [get_well_positions] returns exactly one position per row,
    whether it reads or synthesizes them. When some column name contains
    [well], [position] or [pos], the positions are the cells of the first
    such column, verbatim and in row order: numbers, missing values and
    repeated labels pass through. *)
Theorem get_well_positions_one_per_row (df : DataFrame) :
  len (get_well_positions df) = len (rows df) /\
  (forall col,
     find is_position_col (columns df) = Some col ->
     exists i,
       index_of col (columns df) = Some i /\
       nth_error (columns df) i = Some col /\
       get_well_positions df = map (cell_at i) (rows df) /\
       forall j r, nth_error (rows df) j = Some r ->
                   nth_error (get_well_positions df) j
                   = Some (nth i (cells r) NaN)) /\
  (find is_position_col (columns df) = None ->
   forall j, j < len (rows df) ->
             nth_error (get_well_positions df) j
             = Some (Str (synthesized_well j))).
Proof.
  destruct (find is_position_col (columns df)) as [col |] eqn:F.
  - destruct (get_well_positions_explicit df col F) as [i [Hi [Hn Hwp]]].
    split; [now rewrite Hwp, length_map |].
    split; [| discriminate].
    intros col' E. injection E as <-. exists i.
    repeat (split; [assumption |]).
    intros j r Hj. rewrite Hwp, nth_error_map, Hj. reflexivity.
  - assert (Hpos : filter is_position_col (columns df) = []).
    { rewrite find_filter_hd in F.
      now destruct (filter is_position_col (columns df)). }
    rewrite (get_well_positions_synthesized df Hpos).
    split; [now rewrite length_map, length_seq |].
    split; [discriminate |].
    intros _ j Hj. rewrite nth_error_map, nth_error_seq.
    apply Nat.ltb_lt in Hj. now rewrite Hj.
Qed.

(** X5. Synthesized positions never repeat, whatever the number of rows:
    beyond the 96 grid slots row [j] gets the label [X] followed by [j],
    which differs from every grid label and from every other overflow
    label. *)
Theorem synthesized_positions_distinct (df : DataFrame) :
  filter is_position_col (columns df) = [] ->
  NoDup (get_well_positions df) /\
  (forall j, 96 <= j -> j < len (rows df) ->
     nth_error (get_well_positions df) j
     = Some (Str ("X" ++ PyStr.of_nat j)%string)) /\
  (forall j j' w,
     nth_error (get_well_positions df) j = Some w ->
     nth_error (get_well_positions df) j' = Some w -> j = j').
Proof.
  intros Hpos. rewrite (get_well_positions_synthesized df Hpos).
  assert (Hnd : NoDup (map (fun j => Str (synthesized_well j))
                           (seq 0 (len (rows df))))).
  { apply NoDup_map_NoDup_ForallPairs; [| apply seq_NoDup].
    intros a b _ _ E. injection E as E. now apply synthesized_well_inj. }
  split; [exact Hnd |]. split.
  - intros j H96 Hj. rewrite nth_error_map, nth_error_seq.
    pose proof Hj as Hj'. apply Nat.ltb_lt in Hj'. rewrite Hj'. simpl.
    unfold synthesized_well.
    change (len grid_rows * len grid_cols) with 96.
    apply Nat.ltb_ge in H96. now rewrite H96.
  - intros j j' w Hj Hj'.
    rewrite NoDup_nth_error in Hnd. apply Hnd.
    + apply nth_error_Some. congruence.
    + congruence.
Qed.

(** ** Column Classifier: the mapping as a whole *)

Lemma scan_columns_find (liquid : Liquid) (pl : list string)
    (cols : list string) (binding : dict string) :
  scan_columns liquid pl cols binding
  = match find (matches pl) cols with
    | Some c => dict_set binding liquid c
    | None => binding
    end.
Proof.
  induction cols as [| col cols IH]; simpl; [reflexivity |].
  now destruct (matches pl col).
Qed.

Lemma classify_closed (cols : list string) :
  classify cols patterns
  = flat_map (fun lp => match find (matches (snd lp)) cols with
                        | Some c => [(fst lp, c)]
                        | None => []
                        end) patterns.
Proof.
  unfold classify, patterns. cbn [fold_left flat_map fst snd].
  rewrite !scan_columns_find.
  destruct (find (matches ["gly"; "2.4m"; "glycine"]) cols),
           (find (matches ["nacl"; "5m"; "salt"]) cols),
           (find (matches ["tris"; "buffer"; "0.5m"]) cols),
           (find (matches ["water"; "h2o"]) cols); reflexivity.
Qed.

Lemma classify_bound (cols : list string) (rg : Liquid) (col : string) :
  dict_get (classify cols patterns) rg = Some col ->
  In col cols /\ exists pl, In (rg, pl) patterns /\ matches pl col = true.
Proof.
  intros H.
  assert (Hp : exists pl, In (rg, pl) patterns).
  { unfold patterns. destruct rg; eexists; simpl; eauto 6. }
  destruct Hp as [pl Hp]. rewrite (classify_get cols rg pl Hp) in H.
  apply find_some in H. destruct H as [Hin Hm].
  split; [exact Hin | now exists pl].
Qed.

(** X6. The mapping of [identify_columns] lists the matched reagents in
    the order of the pattern table (glycine, nacl, tris, water), each at
    most once; every bound column is one of the table's columns, so that
    looking it up never fails; the mapping depends on the column names
    only, not on the rows. *)
Theorem identify_columns_binding (df : DataFrame) :
  exists binding,
    identify_columns df = ([MsgIdentified binding], Ok binding) /\
    binding
    = flat_map (fun lp => match find (matches (snd lp)) (columns df) with
                          | Some c => [(fst lp, c)]
                          | None => []
                          end) patterns /\
    NoDup (map fst binding) /\
    len binding <= 4 /\
    (forall rg col,
       dict_get binding rg = Some col ->
       In col (columns df) /\
       exists i, index_of col (columns df) = Some i /\
                 nth_error (columns df) i = Some col) /\
    (forall df', columns df' = columns df ->
                 outcome (identify_columns df') = Ok binding).
Proof.
  exists (classify (columns df) patterns).
  split; [reflexivity |].
  split; [apply classify_closed |].
  split.
  { rewrite classify_closed. unfold patterns. cbn [flat_map fst snd].
    destruct (find (matches ["gly"; "2.4m"; "glycine"]) (columns df)),
             (find (matches ["nacl"; "5m"; "salt"]) (columns df)),
             (find (matches ["tris"; "buffer"; "0.5m"]) (columns df)),
             (find (matches ["water"; "h2o"]) (columns df));
      simpl; repeat constructor; simpl; intuition discriminate. }
  split.
  { rewrite classify_closed. unfold patterns. cbn [flat_map fst snd].
    destruct (find (matches ["gly"; "2.4m"; "glycine"]) (columns df)),
             (find (matches ["nacl"; "5m"; "salt"]) (columns df)),
             (find (matches ["tris"; "buffer"; "0.5m"]) (columns df)),
             (find (matches ["water"; "h2o"]) (columns df));
      simpl; lia. }
  split.
  { intros rg col H. apply classify_bound in H. destruct H as [Hin _].
    split; [exact Hin | now apply index_of_found]. }
  intros df' E. unfold identify_columns. now rewrite outcome_emit, E.
Qed.

(** ** Transfer Grouper: the requests partition the positive rows *)

Lemma request_volume_key df binding wp ts t col i :
  group_by_reagent_and_volume df binding wp = Ok ts ->
  In t ts ->
  dict_get binding (reagent t) = Some col ->
  index_of col (columns df) = Some i ->
  In (volume t) (numeric_keys (map (cell_at i) (rows df))).
Proof.
  intros H Hin D Hi.
  destruct (group_by_In _ _ _ _ _ H Hin) as [rg [part [Hp Ht]]].
  destruct (dict_get binding rg) as [col' |] eqn:D'.
  - destruct (per_reagent_bound _ _ _ _ _ _ D' Hp) as [i' [Hi' [Hvol Hok]]].
    rewrite Forall_forall in Hok.
    pose proof (ok_reagent _ _ _ _ _ (Hok t Ht)) as Hrg. subst rg.
    assert (col' = col) by congruence. subst col'.
    assert (i' = i) by congruence. subst i'.
    assert (Hv : In (volume t) (map volume part)) by now apply in_map.
    rewrite Hvol in Hv. now apply filter_In in Hv.
  - apply (per_reagent_unbound _ _ _ _ _ D') in Hp. subst part. contradiction.
Qed.

Lemma key_has_row (df : DataFrame) (i : nat) (v : Q) :
  In v (numeric_keys (map (cell_at i) (rows df))) ->
  contributing df i v <> [].
Proof.
  intros Hk. apply numeric_keys_sound in Hk.
  apply in_map_iff in Hk. destruct Hk as [r [Hc Hr]].
  assert (Hin : In r (contributing df i v)).
  { apply contributing_spec. split; [exact Hr |].
    exists v. split; [exact Hc | reflexivity]. }
  intros E. rewrite E in Hin. contradiction.
Qed.

Lemma request_unique df binding wp ts t t' :
  group_by_reagent_and_volume df binding wp = Ok ts ->
  In t ts -> In t' ts ->
  reagent t = reagent t' -> (volume t == volume t')%Q -> t = t'.
Proof.
  intros H Hin Hin' Hrg Hv.
  pose proof (group_by_sorted _ _ _ _ H) as Hs.
  apply In_nth_error in Hin, Hin'.
  destruct Hin as [a Ha], Hin' as [b Hb].
  assert (Hno : forall x y, reagent x = reagent y ->
                  (volume x == volume y)%Q -> ~ before x y).
  { intros x y Er Ev [Hlt | [_ Hlt]].
    - rewrite Er in Hlt. lia.
    - rewrite Ev in Hlt. now apply Qlt_irrefl in Hlt. }
  destruct (Nat.lt_trichotomy a b) as [Hab | [-> | Hab]].
  - exfalso. apply (Hno t t' Hrg Hv).
    exact (StronglySorted_nth _ _ _ _ _ _ Hs Hab Ha Hb).
  - congruence.
  - exfalso. apply (Hno t' t (eq_sym Hrg)); [now symmetry |].
    exact (StronglySorted_nth _ _ _ _ _ _ Hs Hab Hb Ha).
Qed.

(** X7. The requests of one reagent partition the rows that have a
    strictly positive volume in its column: no request is empty, the count
    of a request is the number of rows that hold its volume, two requests
    of one reagent never have the same volume, and every row with a
    positive volume is in the group of exactly one request of the
    reagent. *)
Theorem group_by_partition (df : DataFrame) (binding : dict string)
    (wp : list cell) (ts : list Transfer) :
  group_by_reagent_and_volume df binding wp = Ok ts ->
  (forall t, In t ts ->
     exists col i,
       dict_get binding (reagent t) = Some col /\
       index_of col (columns df) = Some i /\
       0 < count t /\
       count t = len (contributing df i (volume t)) /\
       wells t <> []) /\
  (forall t t', In t ts -> In t' ts ->
     reagent t = reagent t' -> (volume t == volume t')%Q -> t = t') /\
  (forall rg col i r q,
     dict_get binding rg = Some col ->
     index_of col (columns df) = Some i ->
     In r (rows df) -> cell_at i r = Num q -> (0 < q)%Q ->
     exists t,
       (In t ts /\ reagent t = rg /\ In r (contributing df i (volume t))) /\
       forall t', In t' ts -> reagent t' = rg ->
                  In r (contributing df i (volume t')) -> t' = t).
Proof.
  intros H. split; [| split].
  - intros t Hin.
    destruct (request_in_output _ _ _ _ _ H Hin) as [col [i [D [Hi Hok]]]].
    exists col, i. split; [exact D |]. split; [exact Hi |].
    pose proof (request_volume_key _ _ _ _ _ _ _ H Hin D Hi) as Hk.
    apply key_has_row in Hk.
    pose proof (Forall2_length (ok_wells _ _ _ _ _ Hok)) as Hl.
    rewrite (ok_count _ _ _ _ _ Hok), <- Hl.
    destruct (contributing df i (volume t)) as [| r0 l] eqn:E;
      [contradiction |].
    split; [simpl; lia |]. split; [reflexivity |].
    destruct (wells t); [discriminate Hl | discriminate].
  - intros t t'. apply (request_unique _ _ _ _ _ _ H).
  - intros rg col i r q D Hi Hr Hc Hq.
    destruct (positive_row_grouped _ _ _ _ _ _ _ _ _ H D Hi Hr Hc Hq)
      as [t [Hin [Hrg [Hqv [Hcon _]]]]].
    exists t. split; [auto |].
    intros t' Hin' Hrg' Hcon'.
    apply (request_unique _ _ _ _ _ _ H Hin' Hin); [congruence |].
    apply contributing_spec in Hcon'. destruct Hcon' as [_ [q' [Hc' Hv']]].
    assert (q' = q) by congruence. subst q'.
    now rewrite <- Hv', Hqv.
Qed.

(** ** Transfer Grouper: when it returns and what it raises *)

Lemma text_keys_In (cs : list cell) (s : string) :
  In s (text_keys cs) <-> In (Str s) cs.
Proof.
  induction cs as [| c cs IH]; simpl; [reflexivity |].
  destruct c as [q | | s']; simpl; rewrite IH.
  - split; [now right | intros [E | H]; [discriminate | exact H]].
  - split; [now right | intros [E | H]; [discriminate | exact H]].
  - split; (intros [E | H]; [left; congruence | now right]).
Qed.

Lemma per_reagent_no_text df binding wp rg col i part r :
  dict_get binding rg = Some col ->
  index_of col (columns df) = Some i ->
  per_reagent df binding wp rg = Ok part ->
  In r (rows df) -> numeric (cell_at i r).
Proof.
  intros D Hi. unfold per_reagent, groupby. rewrite D, Hi. simpl.
  intros H Hr.
  match type of H with
  | emitted _ _ _ (map ?f (?a ++ ?b)) = _ =>
      change (map f (a ++ b)) with (groups_of df i (a ++ b)) in H
  end.
  apply emitted_numeric in H. destruct H as [ts1 [ts2 [_ [_ [_ Hrest]]]]].
  destruct (cell_at i r) as [q | | s] eqn:E; simpl; auto.
  assert (Hin : In s (nodup string_dec
                        (text_keys (map (cell_at i) (rows df))))).
  { apply nodup_In, text_keys_In. rewrite <- E. now apply in_map. }
  destruct (nodup string_dec _) as [| s0 l]; [contradiction |].
  simpl in Hrest. discriminate.
Qed.

Lemma volume_loop_returns df wp rg tube i (vs : list Q) acc :
  (forall r, In r (rows df) -> positive_at i r = true -> label r < len wp) ->
  exists ts, volume_loop rg tube wp (groups_of df i (map KNum vs)) acc = Ok ts.
Proof.
  intros Hl. revert acc. induction vs as [| v vs IH]; intros acc; simpl.
  - now eexists.
  - destruct (Qle_bool v 0) eqn:Hv; [apply IH |].
    destruct (rmap_total (fun r => well_at wp (label r))
                (filter (has_key i (KNum v)) (rows df))) as [ws Hws].
    { intros r Hr. apply filter_In in Hr. destruct Hr as [Hr Hk].
      assert (Hp : positive_at i r = true).
      { apply has_key_num in Hk. destruct Hk as [q [Hc Hq]].
        apply positive_at_spec. exists q. split; [exact Hc |].
        rewrite Hq. apply positive_spec. unfold positive. now rewrite Hv. }
      unfold well_at. destruct (nth_error wp (label r)) eqn:E; [now eexists |].
      apply nth_error_None in E. specialize (Hl r Hr Hp). lia. }
    rewrite Hws. simpl. apply IH.
Qed.

Lemma groupable_returns df binding wp :
  groupable df binding wp ->
  exists ts, group_by_reagent_and_volume df binding wp = Ok ts.
Proof.
  intros Hg. unfold group_by_reagent_and_volume.
  generalize (@nil Transfer) as acc.
  induction reagent_order as [| rg order IH]; intros acc; simpl;
    [now eexists |].
  destruct (dict_get binding rg) as [col |] eqn:D; [| apply IH].
  destruct (Hg rg col D) as [i [Hi [Hnum Hl]]].
  unfold groupby. rewrite Hi. simpl.
  rewrite text_keys_numeric.
  - simpl. rewrite app_nil_r.
    destruct (volume_loop_returns df wp rg (tube_position rg) i
                (numeric_keys (map (cell_at i) (rows df))) acc Hl)
      as [ts Hts].
    unfold groups_of in Hts. rewrite Hts. simpl. apply IH.
  - intros c Hc. apply in_map_iff in Hc. destruct Hc as [r [<- Hr]].
    now apply Hnum.
Qed.

Lemma returns_groupable df binding wp ts :
  group_by_reagent_and_volume df binding wp = Ok ts ->
  groupable df binding wp.
Proof.
  intros H rg col D.
  destruct (group_by_part _ _ _ _ rg H) as [part [Hp Hsub]].
  destruct (per_reagent_bound _ _ _ _ _ _ D Hp) as [i [Hi _]].
  exists i. split; [exact Hi |]. split.
  - intros r Hr. eapply per_reagent_no_text; eassumption.
  - intros r Hr Hpos. apply positive_at_spec in Hpos.
    destruct Hpos as [q [Hc Hq]].
    destruct (positive_row_grouped _ _ _ _ _ _ _ _ _ H D Hi Hr Hc Hq)
      as [t [_ [_ [_ [Hcon Hok]]]]].
    destruct (Forall2_In_left _ _ _ _ (ok_wells _ _ _ _ _ Hok) Hcon)
      as [w [_ Hn]].
    apply nth_error_Some. congruence.
Qed.

(** X8. [group_by_reagent_and_volume] returns a list of requests exactly
    when every bound column is a column of the frame and holds no text,
    and the index label of every row with a positive volume in a bound
    column is a position of [well_positions]; rows with a volume at most 0
    or missing are never looked up. *)
Theorem group_by_returns_iff (df : DataFrame) (binding : dict string)
    (wp : list cell) :
  (exists ts, group_by_reagent_and_volume df binding wp = Ok ts) <->
  groupable df binding wp.
Proof.
  split; [| apply groupable_returns].
  intros [ts H]. exact (returns_groupable _ _ _ _ H).
Qed.

(** ** Step generation for a segment *)

Lemma reset_index_rows (df : DataFrame) (r' : Row) :
  In r' (rows (reset_index df)) <->
  exists k r, nth_error (rows df) k = Some r /\ r' = mkRow k (cells r).
Proof. simpl. rewrite relabel_In. reflexivity. Qed.

Lemma reset_index_labels (df : DataFrame) (r' : Row) :
  In r' (rows (reset_index df)) -> label r' < len (rows df).
Proof.
  intros H. apply reset_index_rows in H. destruct H as [k [r [Hk ->]]].
  simpl. apply nth_error_Some. congruence.
Qed.

Lemma volume_loop_raise df wp rg tube i (keys : list gkey) acc e :
  (forall r, In r (rows df) -> label r < len wp) ->
  volume_loop rg tube wp (groups_of df i keys) acc = Raise e ->
  e = TypeError /\ exists s, In (KStr s) keys.
Proof.
  intros Hl. revert acc. induction keys as [| [v | s] keys IH]; intros acc;
    simpl; [discriminate | |].
  - assert (Hnext : forall acc',
              volume_loop rg tube wp (groups_of df i keys) acc' = Raise e ->
              e = TypeError /\ exists s, In (KStr s) (KNum v :: keys)).
    { intros acc' H. destruct (IH acc' H) as [-> [s Hs]].
      split; [reflexivity |]. exists s. now right. }
    destruct (Qle_bool v 0); [apply Hnext |].
    destruct (rmap_total (fun r => well_at wp (label r))
                (filter (has_key i (KNum v)) (rows df))) as [ws Hws].
    { intros r Hr. apply filter_In in Hr. destruct Hr as [Hr _].
      unfold well_at. destruct (nth_error wp (label r)) eqn:E; [now eexists |].
      apply nth_error_None in E. specialize (Hl r Hr). lia. }
    rewrite Hws. simpl. apply Hnext.
  - intros H. injection H as <-. split; [reflexivity |]. exists s. now left.
Qed.

Lemma reagent_loop_raise df binding wp order acc e :
  (forall rg col, dict_get binding rg = Some col -> In col (columns df)) ->
  (forall r, In r (rows df) -> label r < len wp) ->
  reagent_loop df binding wp order acc = Raise e ->
  e = TypeError /\
  exists rg col i r s,
    dict_get binding rg = Some col /\ index_of col (columns df) = Some i /\
    In r (rows df) /\ cell_at i r = Str s.
Proof.
  intros Hb Hl. revert acc. induction order as [| rg order IH]; intros acc;
    simpl; [discriminate |].
  destruct (dict_get binding rg) as [col |] eqn:D; [| apply IH].
  destruct (index_of_found col (columns df) (Hb rg col D)) as [i [Hi _]].
  unfold groupby. rewrite Hi. simpl.
  match goal with
  | |- context [volume_loop _ _ _ (map ?f ?ks) _] =>
      change (map f ks) with (groups_of df i ks)
  end.
  destruct (volume_loop rg (tube_position rg) wp _ acc) as [ts | e'] eqn:V;
    simpl; [apply IH |].
  intros H. injection H as <-.
  destruct (volume_loop_raise _ _ _ _ _ _ _ _ Hl V) as [-> [s Hs]].
  split; [reflexivity |].
  apply in_app_iff in Hs. destruct Hs as [Hs | Hs].
  - apply in_map_iff in Hs. destruct Hs as [q [E _]]. discriminate.
  - apply in_map_iff in Hs. destruct Hs as [s' [E Hs]]. injection E as ->.
    apply nodup_In, text_keys_In, in_map_iff in Hs.
    destruct Hs as [r [Hc Hr]]. now exists rg, col, i, r, s.
Qed.

Lemma cell_at_relabelled (i k : nat) (r : Row) :
  cell_at i (mkRow k (cells r)) = cell_at i r.
Proof. reflexivity. Qed.

(** X9. With a binding whose columns are columns of the segment (as the
    one of [identify_columns] is), [generate_protocol_steps_for_segment]
    returns exactly when no bound column of the segment holds a text, and
    the only exception it raises is [TypeError]: resetting the index
    before grouping rules out [IndexError], whatever labels the rows
    carried and whether the positions were read or synthesized. *)
Theorem generate_protocol_steps_returns_iff (seg : DataFrame)
    (binding : dict string) :
  (forall rg col, dict_get binding rg = Some col -> In col (columns seg)) ->
  ((exists steps, generate_protocol_steps_for_segment seg binding = Ok steps)
   <->
   (forall rg col i r,
      dict_get binding rg = Some col ->
      index_of col (columns seg) = Some i ->
      In r (rows seg) -> numeric (cell_at i r))) /\
  (forall e,
     generate_protocol_steps_for_segment seg binding = Raise e ->
     e = TypeError /\
     exists rg col i r s,
       dict_get binding rg = Some col /\
       index_of col (columns seg) = Some i /\
       In r (rows seg) /\ cell_at i r = Str s).
Proof.
  intros Hb. unfold generate_protocol_steps_for_segment.
  assert (Hl : forall r, In r (rows (reset_index seg)) ->
                 label r < len (get_well_positions seg)).
  { intros r Hr. rewrite get_well_positions_length.
    now apply reset_index_labels. }
  split; [split |].
  - intros [steps H].
    destruct (group_by_reagent_and_volume (reset_index seg) binding
                (get_well_positions seg)) as [ts | e] eqn:G;
      [| discriminate].
    intros rg col i r D Hi Hr.
    destruct (returns_groupable _ _ _ _ G rg col D) as [i' [Hi' [Hnum _]]].
    simpl in Hi'. assert (i' = i) by congruence. subst i'.
    apply In_nth_error in Hr. destruct Hr as [k Hk].
    rewrite <- (cell_at_relabelled i k r). apply Hnum.
    apply reset_index_rows. now exists k, r.
  - intros Hnum.
    destruct (groupable_returns (reset_index seg) binding
                (get_well_positions seg)) as [ts Hts].
    + intros rg col D.
      destruct (index_of_found col (columns seg) (Hb rg col D)) as [i [Hi _]].
      exists i. split; [exact Hi |]. split.
      * intros r' Hr'. apply reset_index_rows in Hr'.
        destruct Hr' as [k [r [Hk ->]]]. rewrite cell_at_relabelled.
        apply (Hnum rg col i r D Hi). eapply nth_error_In; eassumption.
      * intros r' Hr' _. now apply Hl.
    + rewrite Hts. simpl. now eexists.
  - intros e H.
    destruct (group_by_reagent_and_volume (reset_index seg) binding
                (get_well_positions seg)) as [ts | e'] eqn:G;
      [discriminate |].
    simpl in H. injection H as <-.
    unfold group_by_reagent_and_volume in G.
    destruct (reagent_loop_raise (reset_index seg) binding
                (get_well_positions seg) reagent_order [] e' Hb Hl G)
      as [-> [rg [col [i [r' [s [D [Hi [Hr' Hs]]]]]]]]].
    split; [reflexivity |].
    apply reset_index_rows in Hr'. destruct Hr' as [k [r [Hk ->]]].
    exists rg, col, i, r, s. repeat split; auto.
    eapply nth_error_In; eassumption.
Qed.

Lemma request_nonempty df binding wp ts t :
  group_by_reagent_and_volume df binding wp = Ok ts ->
  In t ts -> 0 < count t /\ wells t <> [].
Proof.
  intros H Hin.
  destruct (request_in_output _ _ _ _ _ H Hin) as [col [i [D [Hi Hok]]]].
  pose proof (request_volume_key _ _ _ _ _ _ _ H Hin D Hi) as Hk.
  apply key_has_row in Hk.
  pose proof (Forall2_length (ok_wells _ _ _ _ _ Hok)) as Hl.
  rewrite (ok_count _ _ _ _ _ Hok).
  destruct (contributing df i (volume t)); [contradiction |].
  destruct (wells t); [discriminate Hl |]. split; [simpl; lia | discriminate].
Qed.

Lemma steps_loop_spec (ts : list Transfer) (c : nat) :
  Forall (fun t => 0 < count t) ts ->
  Forall2 renders ts (steps_loop ts c) /\
  map step_num (steps_loop ts c) = seq c (len ts).
Proof.
  intros H. revert c. induction H as [| t ts Ht _ IH]; intros c; simpl.
  - split; [constructor | reflexivity].
  - apply Nat.ltb_lt in Ht. rewrite Ht.
    destruct (IH (S c)) as [HF Hn]. split.
    + constructor; [| exact HF].
      unfold renders, generate_transfer_step.
      destruct (select_pipette (volume t)) as [p pt]. simpl. auto.
    + unfold generate_transfer_step at 1.
      destruct (select_pipette (volume t)) as [p pt]. simpl. now rewrite Hn.
Qed.

(** X10. The steps of a segment are its requests, one step each and in
    the same order, numbered 1, 2, ... without a gap: the guard on the
    count never skips a request. Each step carries the volume, source tube
    and wells of its request and the pipette that [select_pipette] gives
    for the volume; its wells are not empty and are positions of the
    segment. *)
Theorem generate_protocol_steps_numbered (seg : DataFrame)
    (binding : dict string) (steps : list Step) :
  generate_protocol_steps_for_segment seg binding = Ok steps ->
  exists ts,
    group_by_reagent_and_volume (reset_index seg) binding
      (get_well_positions seg) = Ok ts /\
    len steps = len ts /\
    map step_num steps = seq 1 (len ts) /\
    Forall2 renders ts steps /\
    (forall s, In s steps ->
       (0 < step_volume s)%Q /\
       step_dest s <> [] /\
       (forall w, In w (step_dest s) -> In w (get_well_positions seg)) /\
       ((step_volume s <= 20)%Q -> pipette_type s = "p20_single_gen2") /\
       ((20 < step_volume s)%Q -> pipette_type s = "p300_single_gen2")).
Proof.
  unfold generate_protocol_steps_for_segment. intros H.
  destruct (group_by_reagent_and_volume (reset_index seg) binding
              (get_well_positions seg)) as [ts | e] eqn:G; [| discriminate].
  simpl in H. injection H as <-. exists ts.
  destruct (steps_loop_spec ts 1) as [HF Hn].
  { apply Forall_forall. intros t Ht.
    apply (request_nonempty _ _ _ _ _ G Ht). }
  split; [reflexivity |].
  split; [symmetry; apply (Forall2_length HF) |].
  split; [exact Hn |]. split; [exact HF |].
  intros s Hs.
  destruct (Forall2_In_right _ _ _ _ HF Hs) as [t [Ht [Hv [Hsrc [Hd Hp]]]]].
  destruct (request_in_output _ _ _ _ _ G Ht) as [col [i [D [Hi Hok]]]].
  split; [rewrite Hv; apply (ok_positive _ _ _ _ _ Hok) |].
  split; [rewrite Hd; apply (request_nonempty _ _ _ _ _ G Ht) |].
  split.
  { intros w Hw. rewrite Hd in Hw.
    destruct (Forall2_In_right _ _ _ _ (ok_wells _ _ _ _ _ Hok) Hw)
      as [r [_ Hn']].
    eapply nth_error_In; eassumption. }
  rewrite Hv. unfold select_pipette in Hp. split.
  - intros Hle. apply Qle_bool_iff in Hle. rewrite Hle in Hp. congruence.
  - intros Hlt. destruct (Qle_bool (volume t) 20) eqn:E; [| congruence].
    apply Qle_bool_iff in E. exfalso. now apply (Qlt_not_le _ _ Hlt).
Qed.

(** ** Orchestration: the files of a run *)

Lemma files_loop_step (w : World) binding total seg segments idx acc :
  files_loop w binding total (seg :: segments) idx acc
  = match generate_protocol_steps_for_segment seg binding with
    | Raise e =>
        ([MsgGenerating (idx + 1) total (len (rows seg))
            (segment_path total (idx + 1))], Raise e)
    | Ok body =>
        let p := segment_path total (idx + 1) in
        let code := mkProgram (mkHeader (idx + 1) total (len (rows seg))
                                 (clock w idx)) body in
        if write_ok w p then
          let '(tr, r) := files_loop w binding total segments (S idx)
                            (acc ++ [p]) in
          (MsgGenerating (idx + 1) total (len (rows seg)) p
           :: Wrote p code :: MsgSaved (idx + 1) :: tr, r)
        else
          let '(tr, r) := files_loop w binding total segments (S idx) acc in
          (MsgGenerating (idx + 1) total (len (rows seg)) p
           :: MsgWriteError (idx + 1) :: tr, r)
    end.
Proof.
  cbn [files_loop]. fold (segment_path total (idx + 1)).
  unfold generate_protocol_header.
  destruct (generate_protocol_steps_for_segment seg binding) as [body | e];
    [| reflexivity].
  cbv zeta.
  destruct (write_ok w (segment_path total (idx + 1))).
  - unfold bind, emit, lift, ret. cbn [fst snd app].
    destruct (files_loop w binding total segments (S idx) _) as [tr r].
    destruct r; reflexivity.
  - unfold bind, emit, lift, ret. cbn [fst snd app].
    destruct (files_loop w binding total segments (S idx) _) as [tr r].
    destruct r; reflexivity.
Qed.

Lemma files_loop_ok (w : World) binding total segments idx acc files :
  outcome (files_loop w binding total segments idx acc) = Ok files ->
  let paths := map (segment_path total) (seq (idx + 1) (len segments)) in
  files = acc ++ filter (write_ok w) paths /\
  map fst (written (trace (files_loop w binding total segments idx acc)))
  = filter (write_ok w) paths /\
  (forall p code,
     In (p, code)
        (written (trace (files_loop w binding total segments idx acc))) ->
     exists j seg,
       nth_error segments j = Some seg /\
       p = segment_path total (idx + j + 1) /\
       write_ok w p = true /\
       program_of w binding total (idx + j) seg code).
Proof.
  revert idx acc files.
  induction segments as [| seg segments IH]; intros idx acc files.
  - cbn [files_loop]. unfold outcome, trace, ret; simpl.
    intros H. injection H as <-.
    rewrite app_nil_r. repeat split. intros p code [].
  - rewrite files_loop_step.
    destruct (generate_protocol_steps_for_segment seg binding)
      as [body | e] eqn:G; [| discriminate].
    cbv zeta. cbn [List.length seq map filter].
    replace (S (idx + 1)) with (S idx + 1) by lia.
    destruct (write_ok w (segment_path total (idx + 1))) eqn:W.
    + specialize (IH (S idx) (acc ++ [segment_path total (idx + 1)])).
      destruct (files_loop w binding total segments (S idx) _) as [tr r].
      unfold outcome, trace in *. cbn [fst snd written map] in *.
      intros Hr. destruct (IH files Hr) as [Hf [Hw Hp]].
      split; [now rewrite Hf, <- app_assoc |].
      split; [now rewrite Hw |].
      intros p code [E | Hin].
      * injection E as <- <-. exists 0, seg.
        rewrite !Nat.add_0_r. repeat split; auto.
      * destruct (Hp p code Hin) as [j [seg' [Hj [Hpath [Hok Hprog]]]]].
        exists (S j), seg'.
        replace (idx + S j) with (S idx + j) by lia.
        split; [exact Hj |]. split; [exact Hpath |].
        split; [exact Hok | exact Hprog].
    + specialize (IH (S idx) acc).
      destruct (files_loop w binding total segments (S idx) _) as [tr r].
      unfold outcome, trace in *. cbn [fst snd written map] in *.
      intros Hr. destruct (IH files Hr) as [Hf [Hw Hp]].
      split; [exact Hf |]. split; [exact Hw |].
      intros p code Hin.
      destruct (Hp p code Hin) as [j [seg' [Hj [Hpath [Hok Hprog]]]]].
      exists (S j), seg'.
      replace (idx + S j) with (S idx + j) by lia.
      split; [exact Hj |]. split; [exact Hpath |].
      split; [exact Hok | exact Hprog].
Qed.

Lemma written_segment_messages {A} (f : A -> nat) (g : A -> nat) (l : list A) :
  written (map (fun p => MsgSegment (f p) (g p)) l) = [].
Proof. induction l; simpl; auto. Qed.

Lemma filter_valid_wells_writes_nothing (df : DataFrame) :
  written (trace (filter_valid_wells df)) = [].
Proof.
  unfold filter_valid_wells.
  destruct (filter is_water_col (columns df)); [reflexivity |].
  unfold bind, lift, emit, ret, trace.
  destruct (rbind _ _); reflexivity.
Qed.

Lemma generate_full_protocol_loop (w : World) (df dff : DataFrame)
    (out : list event) :
  csv_table w = Some df ->
  filter_valid_wells df = (out, Ok dff) ->
  let segments := slices dff max_wells_default in
  let binding := classify (columns dff) patterns in
  let loop := files_loop w binding (len segments) segments 0 [] in
  trace (generate_full_protocol w)
  = [MsgProcessing; MsgLoaded (len (rows df)) (columns df)] ++ out
    ++ [MsgIdentified binding]
    ++ trace (segment_data dff max_wells_default) ++ trace loop /\
  outcome (generate_full_protocol w)
  = match outcome loop with
    | Ok files => Ok (Some files)
    | Raise e => Raise e
    end.
Proof.
  intros Ht Hf segments binding loop.
  unfold generate_full_protocol, read_csv_data. rewrite Ht.
  unfold bind, emit, ret. cbv beta iota. rewrite Hf.
  cbv beta iota. unfold identify_columns, bind, emit, ret. cbv beta iota.
  pose proof (segment_data_outcome dff max_wells_default) as Hs.
  specialize (Hs ltac:(unfold max_wells_default; lia)).
  destruct (segment_data dff max_wells_default) as [tr_s r_s].
  unfold outcome in Hs. cbn [snd] in Hs. subst r_s.
  fold segments. fold binding. fold loop.
  destruct loop as [tr r]. unfold trace, outcome. cbn [fst snd].
  destruct r; simpl; rewrite ?app_nil_r; split; reflexivity.
Qed.

Lemma filter_all_true {A} (f : A -> bool) (l : list A) :
  (forall x, f x = true) -> filter f l = l.
Proof.
  intros H. induction l as [| a l IH]; simpl; [reflexivity |].
  now rewrite H, IH.
Qed.

Lemma segment_paths_NoDup (n : nat) :
  NoDup (map (segment_path n) (seq 1 n)).
Proof.
  unfold segment_path. destruct (1 <? n) eqn:E.
  - apply NoDup_map_NoDup_ForallPairs; [| apply seq_NoDup].
    intros a b _ _ H. congruence.
  - apply Nat.ltb_ge in E.
    destruct n as [| [| n]]; simpl; [constructor | | lia].
    constructor; [intros [] | constructor].
Qed.

(** X11. When the table is read and validated and no step generation
    raises, [generate_full_protocol] returns the paths of exactly the
    segments whose write succeeded, in segment order and without
    repetition: a failed write is reported and does not stop the later
    segments. With one segment the path is the configured output file,
    with several it is the per-segment file of each number. Every written
    program carries its segment number, the total number of segments
    [ceil(n/28)], a row count between 1 and 28, and the steps of its own
    segment. *)
Theorem generate_full_protocol_files (w : World) (df dff : DataFrame)
    (out : list event) (files : list path) :
  csv_table w = Some df ->
  filter_valid_wells df = (out, Ok dff) ->
  outcome (generate_full_protocol w) = Ok (Some files) ->
  let n := ceil_div (len (rows dff)) 28 in
  let programs := written (trace (generate_full_protocol w)) in
  files = filter (write_ok w) (map (segment_path n) (seq 1 n)) /\
  map fst programs = files /\
  NoDup files /\
  (n = 1 -> forall p, In p files -> p = OutputFile) /\
  (1 < n -> forall p, In p files ->
            exists k, p = SegmentFile k /\ 1 <= k <= n) /\
  ((forall p, write_ok w p = true) -> len files = n) /\
  (forall p code,
     In (p, code) programs ->
     exists j seg,
       nth_error (slices dff 28) j = Some seg /\
       p = segment_path n (j + 1) /\
       program_of w (classify (columns dff) patterns) n j seg code /\
       0 < wells_in_segment (header code) <= 28).
Proof.
  intros Ht Hf Hout n programs.
  destruct (generate_full_protocol_loop w df dff out Ht Hf) as [Htr Ho].
  assert (Hn : len (slices dff max_wells_default) = n).
  { unfold slices. now rewrite length_map, length_seq. }
  rewrite Hn in Htr, Ho.
  destruct (outcome (files_loop w (classify (columns dff) patterns) n
                       (slices dff max_wells_default) 0 []))
    as [files' | e] eqn:L; [| congruence].
  assert (files' = files) by congruence. subst files'.
  destruct (files_loop_ok _ _ _ _ _ _ _ L) as [Hfiles [Hw Hp]].
  rewrite Hn in Hfiles, Hw. cbn [Nat.add app] in Hfiles, Hw.
  assert (Hprog : programs
                  = written (trace (files_loop w
                               (classify (columns dff) patterns) n
                               (slices dff max_wells_default) 0 []))).
  { unfold programs. rewrite Htr, !written_app.
    pose proof (filter_valid_wells_writes_nothing df) as Hv.
    rewrite Hf in Hv. unfold trace in Hv at 1. cbn [fst] in Hv. rewrite Hv.
    rewrite segment_data_trace by (unfold max_wells_default; lia).
    now rewrite written_segment_messages. }
  split; [exact Hfiles |].
  split; [now rewrite Hprog, Hw, Hfiles |].
  split; [rewrite Hfiles; apply NoDup_filter, segment_paths_NoDup |].
  split.
  { intros E p Hin. rewrite Hfiles, E in Hin. simpl in Hin.
    change (segment_path 1 1) with OutputFile in Hin.
    destruct (write_ok w OutputFile); simpl in Hin;
      [destruct Hin as [<- | []]; reflexivity | contradiction]. }
  split.
  { intros E p Hin. rewrite Hfiles in Hin. apply filter_In in Hin.
    destruct Hin as [Hin _]. apply in_map_iff in Hin.
    destruct Hin as [k [Hk Hin]]. apply in_seq in Hin.
    unfold segment_path in Hk. apply Nat.ltb_lt in E. rewrite E in Hk.
    exists k. split; [now symmetry | lia]. }
  split.
  { intros Hall. rewrite Hfiles, filter_all_true by auto.
    now rewrite length_map, length_seq. }
  intros p code Hin. rewrite Hprog in Hin.
  destruct (Hp p code Hin) as [j [seg [Hj [Hpath [_ Hpr]]]]].
  exists j, seg. cbn [Nat.add] in Hpath, Hpr.
  split; [exact Hj |]. split; [exact Hpath |]. split; [exact Hpr |].
  destruct Hpr as [Hh _]. rewrite Hh. simpl.
  apply (slices_nonempty dff max_wells_default j seg);
    [unfold max_wells_default; lia | exact Hj].
Qed.

Lemma generate_full_protocol_some (w : World) (files : list path) :
  outcome (generate_full_protocol w) = Ok (Some files) ->
  exists df dff out,
    csv_table w = Some df /\ filter_valid_wells df = (out, Ok dff).
Proof.
  intros H. destruct (csv_table w) as [df |] eqn:Ht.
  - destruct (filter_valid_wells df) as [out [dff | e]] eqn:Hf.
    + now exists df, dff, out.
    + exfalso. revert H.
      unfold generate_full_protocol, read_csv_data. rewrite Ht.
      unfold bind, emit, ret, outcome. cbv beta iota. rewrite Hf.
      simpl. discriminate.
  - rewrite (generate_full_protocol_unreadable w Ht) in H. discriminate.
Qed.

Lemma generate_full_protocol_written (w : World) (files : list path) :
  outcome (generate_full_protocol w) = Ok (Some files) ->
  map fst (written (trace (generate_full_protocol w))) = files.
Proof.
  intros Hout.
  destruct (generate_full_protocol_some w files Hout)
    as [df [dff [out [Ht Hf]]]].
  destruct (generate_full_protocol_loop w df dff out Ht Hf) as [Htr Ho].
  destruct (outcome (files_loop w (classify (columns dff) patterns)
                       (len (slices dff max_wells_default))
                       (slices dff max_wells_default) 0 []))
    as [files' | e] eqn:L; [| congruence].
  assert (files' = files) by congruence. subst files'.
  destruct (files_loop_ok _ _ _ _ _ _ _ L) as [Hfiles [Hw _]].
  rewrite Htr, !written_app.
  pose proof (filter_valid_wells_writes_nothing df) as Hv.
  rewrite Hf in Hv. unfold trace in Hv at 1. cbn [fst] in Hv. rewrite Hv.
  rewrite segment_data_trace by (unfold max_wells_default; lia).
  rewrite written_segment_messages. simpl. now rewrite Hw, Hfiles.
Qed.

(** X12. [main] stops after the not-found message when the input file
    does not exist. Otherwise it lets an exception of the run escape, and
    after a run that returns it prints exactly one verdict: the completion
    summary, listing exactly the written files, when at least one program
    was written, and the failure message when none was, whether the table
    was unreadable, empty after validation, or every write failed. *)
Theorem main_verdict (w : World) :
  (csv_exists w = false -> main w = ([MsgBanner; MsgNotFound], Ok tt)) /\
  (csv_exists w = true ->
   let run := generate_full_protocol w in
   let files := map fst (written (trace run)) in
   (forall e, outcome run = Raise e ->
              main w = (MsgBanner :: trace run, Raise e)) /\
   (forall gf, outcome run = Ok gf ->
      (files <> [] ->
       main w = (MsgBanner :: trace run ++ [MsgCompleted files], Ok tt)) /\
      (files = [] ->
       main w = (MsgBanner :: trace run ++ [MsgFailed], Ok tt)))).
Proof.
  split.
  - intros He. unfold main. now rewrite He.
  - intros He run files. split.
    + intros e Hr. unfold main. rewrite He. fold run.
      destruct run as [tr r]. unfold outcome in Hr. cbn [snd] in Hr.
      subst r. reflexivity.
    + intros gf Hr.
      assert (Hfiles : match gf with
                       | Some fs => files = fs
                       | None => files = []
                       end).
      { destruct gf as [fs |].
        - now apply generate_full_protocol_written.
        - unfold files, run.
          destruct (csv_table w) as [df |] eqn:Ht.
          + exfalso. revert Hr. unfold run, generate_full_protocol,
              read_csv_data. rewrite Ht.
            unfold bind, emit, ret, outcome. cbv beta iota.
            destruct (filter_valid_wells df) as [o1 [dff | e1]];
              [| simpl; discriminate].
            cbv beta iota. unfold identify_columns, bind, emit, ret.
            cbv beta iota.
            destruct (segment_data dff max_wells_default) as [o2 [sg | e2]];
              [| simpl; discriminate].
            cbv beta iota.
            destruct (files_loop w _ _ sg 0 []) as [o3 [fs | e3]];
              simpl; discriminate.
          + now rewrite (generate_full_protocol_unreadable w Ht). }
      assert (Hmain : main w
                      = (MsgBanner :: trace run
                           ++ [if truthy gf then MsgCompleted files
                               else MsgFailed], Ok tt)).
      { unfold main. rewrite He. fold run.
        destruct run as [tr r]. unfold outcome in Hr. cbn [snd] in Hr.
        subst r. unfold bind, emit, trace. cbn [negb fst snd app].
        destruct gf as [[| f fs] |]; simpl; try reflexivity.
        simpl in Hfiles. now rewrite Hfiles. }
      rewrite Hmain. split; intros Hf.
      * destruct gf as [[| f fs] |]; simpl in *; congruence.
      * destruct gf as [[| f fs] |]; simpl in *;
          [reflexivity | | reflexivity].
        rewrite Hf in Hfiles. discriminate.
Qed.

(** ** The text of a step: source list and liquid class *)

Lemma source_list_length (s : string) (d : list cell) :
  len (source_list s d) = Nat.max 1 (len d).
Proof.
  unfold source_list. cbn [List.length]. rewrite repeat_length.
  destruct (len d); simpl; lia.
Qed.

(** X13. The source list of a step names the source tube only, and has as
    many entries as the destination list whenever that list is not empty,
    which holds for every step that [generate_protocol_steps_for_segment]
    produces; for an empty destination list it still has one entry. *)
Theorem source_list_matches_dest (seg : DataFrame) (binding : dict string)
    (steps : list Step) :
  generate_protocol_steps_for_segment seg binding = Ok steps ->
  (forall s, In s steps ->
     len (source_list (step_source s) (step_dest s)) = len (step_dest s) /\
     forall x, In x (source_list (step_source s) (step_dest s)) ->
               x = step_source s) /\
  (forall tube, source_list tube [] = [tube]) /\
  (forall tube d, d <> [] -> len (source_list tube d) = len d).
Proof.
  intros H.
  assert (Hne : forall tube d, d <> [] -> len (source_list tube d) = len d).
  { intros tube d Hd. rewrite source_list_length.
    destruct d; [contradiction | simpl; lia]. }
  split; [| split; [reflexivity | exact Hne]].
  intros s Hs. split.
  - apply Hne. revert H. unfold generate_protocol_steps_for_segment.
    destruct (group_by_reagent_and_volume (reset_index seg) binding
                (get_well_positions seg)) as [ts | e] eqn:G; [| discriminate].
    simpl. intros E. injection E as <-.
    destruct (steps_loop_spec ts 1) as [HF _].
    { apply Forall_forall. intros t Ht.
      apply (request_nonempty _ _ _ _ _ G Ht). }
    destruct (Forall2_In_right _ _ _ _ HF Hs) as [t [Ht [_ [_ [Hd _]]]]].
    rewrite Hd. apply (request_nonempty _ _ _ _ _ G Ht).
  - intros x [<- | Hx]; [reflexivity |]. now apply repeat_spec in Hx.
Qed.

(** X14. The mix volume of the liquid class is a whole number between 0
    and 20 and at most half the transferred volume; it is 0 for a volume
    below 2, the floor of half the volume (hence at most 10) for a volume
    routed to the p20 pipette, and 20 from a volume of 40 on. The flow
    rate and the tip rack follow the pipette: 7.56 and the 20 uL tips for
    a volume of at most 20, 46.4 and the 200 uL tips above. *)
Theorem liquid_class_of_volume (v : Q) :
  (0 < v)%Q ->
  (0 <= mix_volume v <= 20)%Z /\
  (inject_Z (mix_volume v) <= v / 2)%Q /\
  ((v < 2)%Q -> mix_volume v = 0%Z) /\
  ((v <= 20)%Q ->
   mix_volume v = Qfloor (v / 2) /\ (mix_volume v <= 10)%Z /\
   liquid_class_flow_rate (snd (select_pipette v)) = 756 # 100 /\
   liquid_class_tip_rack (snd (select_pipette v))
   = "opentrons/opentrons_96_filtertiprack_20ul/1") /\
  ((20 < v)%Q ->
   (10 <= mix_volume v)%Z /\
   liquid_class_flow_rate (snd (select_pipette v)) = 464 # 10 /\
   liquid_class_tip_rack (snd (select_pipette v))
   = "opentrons/opentrons_96_filtertiprack_200ul/1") /\
  ((40 <= v)%Q -> mix_volume v = 20%Z).
Proof.
  intros Hv. unfold mix_volume.
  assert (Hhalf : (0 < v / 2)%Q).
  { unfold Qdiv. apply Qmult_lt_0_compat; [exact Hv | reflexivity]. }
  assert (Hmono : forall (z : Z) , (inject_Z z <= v / 2)%Q ->
                    (z <= Qfloor (v / 2))%Z).
  { intros z Hz. rewrite <- (Qfloor_Z z). now apply Qfloor_resp_le. }
  assert (Hup : forall (z : Z), (v / 2 < inject_Z z)%Q ->
                  (Qfloor (v / 2) < z)%Z).
  { intros z Hz. rewrite Zlt_Qlt.
    eapply Qle_lt_trans; [apply Qfloor_le | exact Hz]. }
  assert (H0 : (0 <= Qfloor (v / 2))%Z).
  { apply (Hmono 0%Z). now apply Qlt_le_weak. }
  assert (Hdiv : forall a b : Q, (a <= b)%Q -> (a / 2 <= b / 2)%Q).
  { intros a b Hab. unfold Qdiv. apply Qmult_le_compat_r; [exact Hab |].
    discriminate. }
  assert (Hdivlt : forall a b : Q, (a < b)%Q -> (a / 2 < b / 2)%Q).
  { intros a b Hab. unfold Qdiv. apply Qmult_lt_compat_r; [reflexivity |].
    exact Hab. }
  split; [lia |].
  split.
  { eapply Qle_trans; [| apply (Qfloor_le (v / 2))].
    rewrite <- Zle_Qle. lia. }
  split.
  { intros H2. assert (Qfloor (v / 2) < 1)%Z; [| lia].
    apply Hup. eapply Qlt_le_trans; [apply (Hdivlt v 2%Q H2) |].
    unfold Qle; simpl; lia. }
  split.
  { intros H20.
    assert (Qfloor (v / 2) <= 10)%Z.
    { assert (Qfloor (v / 2) < 11)%Z; [| lia].
      apply Hup. eapply Qle_lt_trans; [apply (Hdiv v 20%Q H20) |].
      unfold Qlt; simpl; lia. }
    unfold select_pipette. apply Qle_bool_iff in H20. rewrite H20.
    repeat split; try reflexivity; lia. }
  split.
  { intros H20.
    assert (10 <= Qfloor (v / 2))%Z.
    { apply Hmono. apply Qlt_le_weak.
      eapply Qle_lt_trans; [| apply (Hdivlt 20%Q v H20)].
      unfold Qle; simpl; lia. }
    unfold select_pipette.
    destruct (Qle_bool v 20) eqn:E.
    - apply Qle_bool_iff in E. exfalso. now apply (Qlt_not_le _ _ H20).
    - repeat split; try reflexivity; lia. }
  intros H40.
  assert (20 <= Qfloor (v / 2))%Z; [| lia].
  apply Hmono. eapply Qle_trans; [| apply (Hdiv 40%Q v H40)].
  unfold Qle; simpl; lia.
Qed.

(** ** The header: protocol name and metadata *)

Lemma append_cancel_l (s a b : string) :
  (s ++ a = s ++ b)%string -> a = b.
Proof.
  induction s as [| c s IH]; simpl; intros H; [exact H |].
  injection H as H. now apply IH.
Qed.

Lemma append_length (a b : string) :
  String.length (a ++ b) = String.length a + String.length b.
Proof. induction a as [| c a IH]; simpl; [reflexivity | now rewrite IH]. Qed.

Lemma append_cancel_r (a b c : string) :
  (a ++ c = b ++ c)%string -> a = b.
Proof.
  revert b. induction a as [| x a IH]; intros [| y b] H; simpl in H.
  - reflexivity.
  - apply (f_equal String.length) in H. simpl in H.
    rewrite append_length in H. lia.
  - apply (f_equal String.length) in H. simpl in H.
    rewrite append_length in H. lia.
  - injection H as -> H. f_equal. now apply IH.
Qed.

Lemma append_assoc (a b c : string) :
  ((a ++ b) ++ c = a ++ (b ++ c))%string.
Proof. induction a as [| x a IH]; simpl; [reflexivity | now rewrite IH]. Qed.

(** X15. The protocol name of a header is the configured name alone in a
    run of at most one segment, and otherwise the configured name followed
    by the segment number and the total: it always starts with the
    configured name, it differs from it in a run of several segments, and
    two segments of one run never get the same protocol name. *)
Theorem protocol_name_per_segment (md : Metadata) (total : nat) :
  (total <= 1 -> forall k, protocol_name md k total = protocolName md) /\
  (1 < total ->
   (forall k, protocol_name md k total <> protocolName md) /\
   (forall k k', protocol_name md k total = protocol_name md k' total ->
                 k = k')) /\
  (forall k, String.prefix (protocolName md) (protocol_name md k total)
             = true).
Proof.
  unfold protocol_name. split; [| split].
  - intros H k. apply Nat.ltb_ge in H. now rewrite H.
  - intros H. apply Nat.ltb_lt in H. rewrite H. split.
    + intros k E.
      apply (f_equal String.length) in E.
      rewrite append_length in E. simpl in E. lia.
    + intros k k' E.
      apply append_cancel_l in E. apply (append_cancel_l " - Segment ") in E.
      rewrite <- !append_assoc in E.
      apply append_cancel_r in E. apply append_cancel_r in E.
      now apply of_nat_inj.
  - intros k. apply prefix_spec. destruct (1 <? total).
    + now eexists.
    + exists EmptyString. clear. induction (protocolName md); simpl; congruence.
Qed.

(** X16. [update_metadata] replaces exactly the fields for which a
    non-empty string is given: [None] and the empty string both leave a
    field as it is, so a field cannot be cleared; the API level is never
    changed; applying the same update twice is the same as applying it
    once; and the name of a single-segment header is the updated name. *)
Theorem update_metadata_fields (md : Metadata)
    (name author' description' : option string) :
  let md' := update_metadata md name author' description' in
  apiLevel md' = apiLevel md /\
  (forall s, name = Some s -> s <> EmptyString -> protocolName md' = s) /\
  (name = None \/ name = Some EmptyString ->
   protocolName md' = protocolName md) /\
  (forall s, author' = Some s -> s <> EmptyString -> author md' = s) /\
  (author' = None \/ author' = Some EmptyString -> author md' = author md) /\
  (forall s, description' = Some s -> s <> EmptyString ->
             description md' = s) /\
  (description' = None \/ description' = Some EmptyString ->
   description md' = description md) /\
  update_metadata md' name author' description' = md' /\
  update_metadata md None None None = md /\
  protocol_name md' 1 1 = or_keep name (protocolName md).
Proof.
  assert (Hset : forall arg old s, arg = Some s -> s <> EmptyString ->
                   or_keep arg old = s).
  { intros arg old s -> Hs. destruct s; [contradiction | reflexivity]. }
  assert (Hkeep : forall arg old, arg = None \/ arg = Some EmptyString ->
                    or_keep arg old = old).
  { intros arg old [-> | ->]; reflexivity. }
  assert (Hidem : forall arg old, or_keep arg (or_keep arg old)
                                  = or_keep arg old).
  { intros [[| c s] |] old; reflexivity. }
  cbv zeta. unfold update_metadata. cbn [protocolName author description
                                          apiLevel].
  repeat split; auto.
  - now rewrite !Hidem.
  - now destruct md.
Qed.

(** ** Validator and classifier on the water column *)

Lemma find_app {A} (f : A -> bool) (l1 l2 : list A) :
  find f (l1 ++ l2)
  = match find f l1 with
    | Some x => Some x
    | None => find f l2
    end.
Proof.
  induction l1 as [| a l1 IH]; simpl; [reflexivity |].
  now destruct (f a).
Qed.

Lemma find_ext_on {A} (f g : A -> bool) (l : list A) :
  (forall x, In x l -> f x = g x) -> find f l = find g l.
Proof.
  induction l as [| a l IH]; simpl; intros H; [reflexivity |].
  rewrite (H a) by now left. rewrite IH by (intros x Hx; apply H; now right).
  reflexivity.
Qed.

Lemma In_slice {A} (x : A) (n m : nat) (l : list A) :
  In x (firstn n (skipn m l)) -> In x l.
Proof.
  intros H. rewrite <- (firstn_skipn m l). apply in_app_iff. right.
  rewrite <- (firstn_skipn n (skipn m l)). apply in_app_iff. now left.
Qed.

(** X17. The validator filters on the first column whose name contains
    [water]; the classifier binds the water reagent to the first column
    whose name contains [water] or [h2o]. When the validator finds its
    column, the water reagent is bound to that same column unless a column
    whose name contains [h2o] comes before it, in which case it is bound
    to the first such column, on which the validator did not filter. *)
Theorem water_column_of_validator_and_classifier (df : DataFrame)
    (water_col : string) :
  find is_water_col (columns df) = Some water_col ->
  exists binding pre post,
    outcome (identify_columns df) = Ok binding /\
    columns df = pre ++ water_col :: post /\
    (forall x, In x pre -> is_water_col x = false) /\
    dict_get binding water
    = match find is_h2o_col pre with
      | Some other => Some other
      | None => Some water_col
      end /\
    ((forall x, In x (columns df) -> is_h2o_col x = true ->
                is_water_col x = true) ->
     dict_get binding water = Some water_col).
Proof.
  intros F. apply find_first in F.
  destruct F as [pre [post [Hcols [Hw Hpre]]]].
  exists (classify (columns df) patterns), pre, post.
  split; [unfold identify_columns; now rewrite outcome_emit |].
  split; [exact Hcols |]. split; [exact Hpre |].
  assert (Hm : forall x, matches ["water"; "h2o"] x
                         = is_water_col x || is_h2o_col x).
  { intros x. unfold matches, PyStr.contains_any, is_water_col, is_h2o_col.
    simpl. now rewrite orb_false_r. }
  assert (Hget : dict_get (classify (columns df) patterns) water
                 = match find is_h2o_col pre with
                   | Some other => Some other
                   | None => Some water_col
                   end).
  { rewrite (classify_get _ water ["water"; "h2o"])
      by (unfold patterns; simpl; auto).
    rewrite Hcols, find_app.
    rewrite (find_ext_on _ is_h2o_col pre).
    - destruct (find is_h2o_col pre); [reflexivity |].
      cbn [find]. now rewrite Hm, Hw.
    - intros x Hx. now rewrite Hm, (Hpre x Hx). }
  split; [exact Hget |].
  intros Hall. rewrite Hget.
  destruct (find is_h2o_col pre) as [other |] eqn:E; [| reflexivity].
  apply find_some in E. destruct E as [Hin Hh].
  assert (Hother : is_water_col other = true).
  { apply Hall; [| exact Hh]. rewrite Hcols. apply in_app_iff. now left. }
  rewrite (Hpre other Hin) in Hother. discriminate.
Qed.

(** X18. When the water reagent is bound to the column on which the
    validator filtered, every row of every segment is in a water request:
    each position of the segment is a destination of a request of reagent
    water, from tube B2, whatever the other columns hold. *)
Theorem validated_rows_get_water (df dff : DataFrame) (out : list event)
    (water_col : string) (binding : dict string)
    (segments : list DataFrame) (k : nat) (seg : DataFrame)
    (ts : list Transfer) :
  filter_valid_wells df = (out, Ok dff) ->
  find is_water_col (columns df) = Some water_col ->
  dict_get binding water = Some water_col ->
  outcome (segment_data dff max_wells_default) = Ok segments ->
  nth_error segments k = Some seg ->
  group_by_reagent_and_volume (reset_index seg) binding
    (get_well_positions seg) = Ok ts ->
  forall j, j < len (rows seg) ->
    exists t w,
      In t ts /\ reagent t = water /\ source_tube t = "B2" /\
      nth_error (get_well_positions seg) j = Some w /\
      In w (wells t).
Proof.
  intros Hf F D Hs Hk G j Hj.
  apply filter_valid_wells_ok in Hf.
  destruct Hf as [[F' _] | [c [i [F' [Hi [_ [Hdff _]]]]]]]; [congruence |].
  assert (c = water_col) by congruence. subst c.
  rewrite segment_data_outcome in Hs by (unfold max_wells_default; lia).
  injection Hs as <-.
  destruct (slices_nonempty dff max_wells_default k seg) as [Hc _];
    [unfold max_wells_default; lia | exact Hk |].
  assert (Hlt : k < len (slices dff max_wells_default))
    by (apply nth_error_Some; congruence).
  unfold slices in Hlt. rewrite length_map, length_seq in Hlt.
  rewrite slices_nth in Hk by exact Hlt. injection Hk as Hseg.
  destruct (nth_error (rows seg) j) as [r |] eqn:Hr;
    [| apply nth_error_None in Hr; lia].
  assert (Hin : In r (rows dff)).
  { pose proof (nth_error_In _ _ Hr) as H. rewrite <- Hseg, iloc_rows in H.
    now apply In_slice in H. }
  rewrite Hdff in Hin. cbn [rows] in Hin. apply filter_In in Hin.
  destruct Hin as [_ Hpos]. apply positive_at_spec in Hpos.
  destruct Hpos as [q [Hq Hq0]].
  assert (Hi' : index_of water_col (columns (reset_index seg)) = Some i).
  { simpl. rewrite Hc, Hdff. exact Hi. }
  destruct (positive_row_grouped (reset_index seg) binding
              (get_well_positions seg) ts water water_col i
              (mkRow j (cells r)) q G D Hi')
    as [t [Ht [Hrg [_ [Hcon Hok]]]]]; auto.
  { apply reset_index_rows. now exists j, r. }
  destruct (Forall2_In_left _ _ _ _ (ok_wells _ _ _ _ _ Hok) Hcon)
    as [w [Hw Hn]].
  exists t, w. repeat split; auto.
  apply (ok_source _ _ _ _ _ Hok).
Qed.

(** ** The constant sections: liquids and labware *)

(** X19. Every request of the grouper aspirates from a tube that the
    liquid section loads: for the reagent of the request, the section
    defines a liquid variable with the name of the reagent's liquid and
    loads that variable, with a volume of 10000, into the one well that is
    the request's source tube. The four loaded tubes are pairwise
    distinct, so two requests with the same source tube have the same
    reagent. *)
Theorem requests_use_loaded_tubes (df : DataFrame) (binding : dict string)
    (wp : list cell) (ts : list Transfer) :
  group_by_reagent_and_volume df binding wp = Ok ts ->
  NoDup (flat_map load_wells (snd generate_liquid_definitions)) /\
  (forall t, In t ts ->
     exists i info,
       nth_error LIQUID_DEFINITIONS (i - 1) = Some (reagent t, info) /\
       liquid_tube info = source_tube t /\
       In (mkDefine i (liquid_name info) (liquid_description info)
             (liquid_color info))
          (fst generate_liquid_definitions) /\
       In (mkLoad [source_tube t] i 10000%Z)
          (snd generate_liquid_definitions)) /\
  (forall t t', In t ts -> In t' ts ->
     source_tube t = source_tube t' -> reagent t = reagent t').
Proof.
  intros H.
  assert (Hsrc : forall t, In t ts ->
                   source_tube t = tube_position (reagent t)).
  { intros t Ht.
    destruct (request_in_output _ _ _ _ _ H Ht) as [col [i [_ [_ Hok]]]].
    apply (ok_source _ _ _ _ _ Hok). }
  split; [| split].
  - apply nodupb_NoDup. reflexivity.
  - intros t Ht. rewrite (Hsrc t Ht).
    destruct (reagent t).
    + exists 1, (mkLiquid "2.4M Glycine" "in water" "#b925ff" "A1").
      simpl. intuition.
    + exists 2, (mkLiquid "5M NaCl" "in water" "#ffd600" "A2").
      simpl. intuition.
    + exists 3, (mkLiquid "500mM Tris buffer" "in water" "#7eff42ff" "B1").
      simpl. intuition.
    + exists 4, (mkLiquid "water" "" "#50d5ffff" "B2").
      simpl. intuition.
  - intros t t' Ht Ht'. rewrite (Hsrc t Ht), (Hsrc t' Ht').
    destruct (reagent t), (reagent t'); simpl; congruence.
Qed.

(** X20. Whatever the volume, the pipette variable and the pipette model
    that [select_pipette] returns are a pipette that the labware section
    loads, and the tip rack named by the liquid class of that model is the
    type of every tip rack loaded for that pipette; no two pieces of
    labware share a deck slot. *)
Theorem pipette_is_loaded (v : Q) :
  NoDup (map location (fst generate_labware_section)) /\
  exists m racks,
    In (mkInstrument (fst (select_pipette v)) (snd (select_pipette v))
          m racks)
       (snd generate_labware_section) /\
    racks <> [] /\
    forall r, In r racks ->
      exists lw,
        In lw (fst generate_labware_section) /\
        labware_var lw = r /\
        liquid_class_tip_rack (snd (select_pipette v))
        = (namespace lw ++ "/" ++ load_name lw ++ "/"
           ++ PyStr.of_nat (version lw))%string.
Proof.
  split; [apply nodupb_NoDup; reflexivity |].
  unfold select_pipette. destruct (Qle_bool v 20).
  - exists "right", ["tip_rack_1"; "tip_rack_3"].
    split; [simpl; auto |]. split; [discriminate |].
    intros r [<- | [<- | []]].
    + exists (mkLabware "tip_rack_1" "opentrons_96_filtertiprack_20ul" "2"
                "opentrons" 1).
      split; [simpl; tauto | split; reflexivity].
    + exists (mkLabware "tip_rack_3" "opentrons_96_filtertiprack_20ul" "5"
                "opentrons" 1).
      split; [simpl; tauto | split; reflexivity].
  - exists "left", ["tip_rack_2"; "tip_rack_4"].
    split; [simpl; auto |]. split; [discriminate |].
    intros r [<- | [<- | []]].
    + exists (mkLabware "tip_rack_2" "opentrons_96_filtertiprack_200ul" "3"
                "opentrons" 1).
      split; [simpl; tauto | split; reflexivity].
    + exists (mkLabware "tip_rack_4" "opentrons_96_filtertiprack_200ul" "6"
                "opentrons" 1).
      split; [simpl; tauto | split; reflexivity].
Qed.

(** ** Instances of the further properties *)

Lemma filter_valid_wells_idempotent_witness :
  filter_valid_wells table_water
  = ([MsgFiltered 2; MsgRemaining 2],
     Ok (mkDF ["V_gly"; "V_Water"]
              [ mkRow 0 [Num 5; Num 90]; mkRow 3 [Num 10; Num (1 # 2)] ])) /\
  outcome (filter_valid_wells
             (mkDF ["V_gly"; "V_Water"]
                   [ mkRow 0 [Num 5; Num 90];
                     mkRow 3 [Num 10; Num (1 # 2)] ]))
  = Ok (mkDF ["V_gly"; "V_Water"]
             [ mkRow 0 [Num 5; Num 90]; mkRow 3 [Num 10; Num (1 # 2)] ]).
Proof.
  split; [reflexivity |].
  exact (proj2 (proj2 (proj2 (proj2 (proj2
           (filter_valid_wells_idempotent table_water _ _ eq_refl)))))).
Defined.

Lemma synthesized_positions_distinct_witness :
  filter is_position_col (columns example_segment) = [] /\
  forall j j' w,
    nth_error (get_well_positions example_segment) j = Some w ->
    nth_error (get_well_positions example_segment) j' = Some w -> j = j'.
Proof.
  split; [reflexivity |].
  exact (proj2 (proj2 (synthesized_positions_distinct example_segment
                         eq_refl))).
Defined.

Lemma group_by_partition_witness :
  group_by_reagent_and_volume (reset_index example_segment) example_binding
    (get_well_positions example_segment) = Ok example_transfers /\
  forall t t', In t example_transfers -> In t' example_transfers ->
    reagent t = reagent t' -> (volume t == volume t')%Q -> t = t'.
Proof.
  split; [reflexivity |].
  exact (proj1 (proj2 (group_by_partition (reset_index example_segment)
                         example_binding (get_well_positions example_segment)
                         example_transfers eq_refl))).
Defined.

Lemma example_binding_columns :
  forall rg col, dict_get example_binding rg = Some col ->
                 In col (columns example_segment).
Proof.
  intros rg col H. destruct rg; simpl in H; try discriminate;
    injection H as <-; simpl; auto.
Defined.

Lemma generate_protocol_steps_returns_iff_witness :
  exists steps,
    generate_protocol_steps_for_segment example_segment example_binding
    = Ok steps.
Proof.
  apply (proj2 (proj1 (generate_protocol_steps_returns_iff example_segment
                         example_binding example_binding_columns))).
  intros rg col i r D Hi Hr.
  destruct rg; simpl in D; try discriminate; injection D as <-;
    vm_compute in Hi; injection Hi as <-; simpl in Hr;
    destruct Hr as [<- | [<- | [<- | [<- | []]]]]; exact I.
Defined.

Lemma generate_protocol_steps_numbered_witness :
  map step_num (steps_loop example_transfers 1) = [1; 2; 3; 4; 5; 6; 7] /\
  Forall2 renders example_transfers (steps_loop example_transfers 1).
Proof.
  destruct (generate_protocol_steps_numbered example_segment example_binding
              (steps_loop example_transfers 1) eq_refl)
    as [ts [G [_ [Hn [HF _]]]]].
  vm_compute in G. injection G as <-. split; [exact Hn | exact HF].
Defined.

Lemma generate_full_protocol_files_witness :
  outcome (generate_full_protocol world_morning) = Ok (Some [OutputFile]) /\
  map fst (written (trace (generate_full_protocol world_morning)))
  = [OutputFile].
Proof.
  split; [reflexivity |].
  exact (proj1 (proj2 (generate_full_protocol_files world_morning
                         example_segment example_segment
                         [MsgFiltered 0; MsgRemaining 4] [OutputFile]
                         eq_refl eq_refl eq_refl))).
Defined.

Lemma source_list_matches_dest_witness :
  generate_protocol_steps_for_segment example_segment example_binding
  = Ok (steps_loop example_transfers 1) /\
  forall s, In s (steps_loop example_transfers 1) ->
    len (source_list (step_source s) (step_dest s)) = len (step_dest s).
Proof.
  split; [reflexivity |].
  intros s Hs.
  exact (proj1 (proj1 (source_list_matches_dest example_segment
                         example_binding (steps_loop example_transfers 1)
                         eq_refl) s Hs)).
Defined.

Lemma liquid_class_of_volume_witness :
  (0 < 5)%Q /\ mix_volume 5 = 2%Z /\ (mix_volume 5 <= 10)%Z.
Proof.
  split; [reflexivity |].
  destruct (liquid_class_of_volume 5 eq_refl) as [_ [_ [_ [H _]]]].
  destruct (H ltac:(discriminate)) as [H1 [H2 _]].
  split; [rewrite H1; reflexivity | exact H2].
Defined.

Lemma water_column_of_validator_and_classifier_witness :
  find is_water_col (columns example_segment) = Some "V_water" /\
  exists binding,
    outcome (identify_columns example_segment) = Ok binding /\
    dict_get binding water = Some "V_water".
Proof.
  split; [reflexivity |].
  destruct (water_column_of_validator_and_classifier example_segment
              "V_water" eq_refl)
    as [binding [pre [post [Ho [_ [_ [_ Hall]]]]]]].
  exists binding. split; [exact Ho |]. apply Hall.
  intros x [<- | [<- | [<- | []]]]; vm_compute; congruence.
Defined.

Lemma validated_rows_get_water_witness :
  exists t w,
    In t example_transfers /\ reagent t = water /\ source_tube t = "B2" /\
    nth_error (get_well_positions example_segment) 3 = Some w /\
    In w (wells t).
Proof.
  apply (validated_rows_get_water example_segment example_segment
           [MsgFiltered 0; MsgRemaining 4] "V_water" example_binding
           [example_segment] 0 example_segment example_transfers
           eq_refl eq_refl eq_refl eq_refl eq_refl eq_refl 3).
  simpl. lia.
Defined.

Lemma requests_use_loaded_tubes_witness :
  group_by_reagent_and_volume (reset_index example_segment) example_binding
    (get_well_positions example_segment) = Ok example_transfers /\
  forall t t', In t example_transfers -> In t' example_transfers ->
    source_tube t = source_tube t' -> reagent t = reagent t'.
Proof.
  split; [reflexivity |].
  exact (proj2 (proj2 (requests_use_loaded_tubes (reset_index example_segment)
                         example_binding (get_well_positions example_segment)
                         example_transfers eq_refl))).
Defined.
